(** * LSH cache (src/lsh/cache.py): a shallow embedding and its properties

    The class [Cache] of [lsh/cache.py] is a banded locality-sensitive-hashing
    index over MinHash fingerprints.  This file embeds its methods as Rocq
    functions and settles the properties stated for it.

    Modelling conventions.
    - A Python [int] is a [Z]; [%] and [//] on a non-zero divisor are
      [Z.modulo] and [Z.div] (both round towards minus infinity, the sign of
      the remainder is the divisor's); on a zero divisor Python raises
      [ZeroDivisionError].
    - A Python [dict] is an association list in insertion order (module
      [Dict]): assigning to a present key keeps its position, a new key goes
      last.  [Cache.jsonable] observes this order
      ([list(d['fingerprints'].keys())[0]]).
    - A Python [set] is a duplicate-free list (module [PySet]).  The
      language leaves the iteration order of a set unspecified; in CPython it
      depends on the history of insertions.  The model iterates in insertion
      order.  The theorems that hold are stated through membership (or
      through the equality of a set with itself after a call that adds
      nothing), so they do not depend on that choice; the one property that
      does depend on the order is refuted on ids for which CPython iterates
      in insertion order too.
    - A doc id is an [int] or a [str] ([DocId]); a [doc_id] argument can also
      be [None], so arguments, members of buckets and keys of the fingerprint
      store have type [option DocId].
    - Exceptions are values of [exn]; a method returns an [Outcome]: the state
      it leaves behind (also when it raises), the log records it emitted and
      its result or exception.
    - The hasher is an object handed to the constructor; the code only uses
      its attribute [num_seeds] and its methods [fingerprint] and [jaccard]
      (record [Hasher]).  Similarity scores are Python floats; the code only
      compares them with [>], so they are modelled as rationals.
    - [hash(tuple(bucket))] is Python's built-in hash on a tuple of integers,
      a deterministic function; it is the section variable [py_hash].
    - [numpy.array_split] and [json.dump]/[json.load] are library functions;
      they are modelled from their documented behaviour. *)

From stdpp Require Import base decidable option list numbers strings pretty.
From Stdlib Require Import Ascii QArith.

Local Open Scope Z_scope.
Local Open Scope string_scope.

(** ** Python values the cache handles *)

Inductive DocId :=
| IdInt (z : Z)
| IdStr (s : string).

#[global] Instance DocId_eq_dec : EqDecision DocId.
Proof. solve_decision. Defined.

(** Keys of a bucket mapping: [hash(...)] gives an [int]; after a JSON
    round trip the keys are [str]. *)
Inductive pykey :=
| KInt (z : Z)
| KStr (s : string).

#[global] Instance pykey_eq_dec : EqDecision pykey.
Proof. solve_decision. Defined.

Inductive exn :=
| AssertionError (msg : string)
| ZeroDivisionError
| ValueError (msg : string)
| KeyError
| IndexError.

#[global] Instance exn_eq_dec : EqDecision exn.
Proof. solve_decision. Defined.

Inductive LogRecord :=
| Warning_DuplicateId (doc_id : DocId)
| Info_ComputingJaccard (num_pairs : nat)
| Info_Keeping (kept total : nat).

(** The line a log record is formatted to.  [update] calls
    [logging.warning('Duplicate id %d', doc_id)]: the record is created
    whatever the type of [doc_id], but [%d] formats integers only; for a
    [str] doc id the formatting raises inside the logging module, which
    reports the failure and drops the line ([None] here), and [update] goes
    on. *)
Definition LogRecord_message (r : LogRecord) : option string :=
  match r with
  | Warning_DuplicateId (IdInt z) => Some ("Duplicate id " +:+ pretty z)
  | Warning_DuplicateId (IdStr _) => None
  | Info_ComputingJaccard n =>
      Some ("Computing Jaccard sim of " +:+ pretty n +:+ " pairs")
  | Info_Keeping kept total =>
      Some ("Keeping " +:+ pretty kept +:+ "/" +:+ pretty total
            +:+ " candidate duplicate pairs")
  end.

(** ** Python sets *)

Module PySet.
Section pyset.
Context {A : Type} `{EqDecision A}.

(** [s.add(x)] *)
Definition add (x : A) (s : list A) : list A :=
  if decide (x ∈ s) then s else s ++ [x].

(** [s.update(xs)] *)
Definition update (s xs : list A) : list A :=
  foldl (λ acc x, add x acc) s xs.

(** [set(xs)] *)
Definition of_list (xs : list A) : list A := update [] xs.

(** [s - t] *)
Definition difference (s t : list A) : list A :=
  filter (λ x, x ∉ t) s.
End pyset.
End PySet.

(** ** Python dicts *)

Module Dict.
Section dict.
Context {K V : Type} `{EqDecision K}.

(** [d.get(k)]: the value, or [None] where [d[k]] raises [KeyError] *)
Fixpoint get (d : list (K * V)) (k : K) : option V :=
  match d with
  | [] => None
  | (k', v) :: d' => if decide (k = k') then Some v else get d' k
  end.

(** [d[k] = v] *)
Fixpoint set (d : list (K * V)) (k : K) (v : V) : list (K * V) :=
  match d with
  | [] => [(k, v)]
  | (k', v') :: d' =>
      if decide (k = k') then (k', v) :: d' else (k', v') :: set d' k v
  end.

(** [list(d.keys())] *)
Definition keys (d : list (K * V)) : list K := d.*1.

(** [k in d] *)
Definition contains (d : list (K * V)) (k : K) : bool :=
  bool_decide (is_Some (get d k)).

(** [{f(k): g(v) for k, v in items}]: later items overwrite earlier ones *)
Definition of_items (items : list (K * V)) : list (K * V) :=
  foldl (λ d kv, set d kv.1 kv.2) [] items.
End dict.
End Dict.

Abbreviation dict K V := (list (K * V)) (only parsing).
Abbreviation pyset A := (list A) (only parsing).

(** ** The hasher and the cache object *)

Record Hasher := {
  num_seeds : Z;
  fingerprint : string → list Z;
  jaccard : list Z → list Z → Q;
}.

Abbreviation bucket_map := (list (pykey * list (option DocId))) (only parsing).

Record Cache := {
  bins : list bucket_map;
  hasher : Hasher;
  band_width : Z;
  num_bands : Z;
  fingerprints : dict (option DocId) (list Z);
}.

Record Outcome (A : Type) := {
  state : Cache;
  logged : list LogRecord;
  result : exn + A;
}.
Arguments state {A} _.
Arguments logged {A} _.
Arguments result {A} _.

Definition divisibility_msg : string :=
  "The number of seeds in the fingerprint must be divisible by the number of bands".

(** [a % b] and [a // b] on Python integers *)
Definition py_mod (a b : Z) : exn + Z :=
  if decide (b = 0) then inl ZeroDivisionError else inr (a `mod` b).

Definition py_floordiv (a b : Z) : exn + Z :=
  if decide (b = 0) then inl ZeroDivisionError else inr (a `div` b).

(** [Cache.__init__(self, hasher, num_bands)] (the default of [num_bands] is
    10).  [range(num_bands)] is empty for [num_bands <= 0]. *)
Definition Cache_init (h : Hasher) (nb : Z) : exn + Cache :=
  let bins0 : list bucket_map := replicate (Z.to_nat nb) [] in
  match py_mod (num_seeds h) nb with
  | inl e => inl e
  | inr r =>
      if decide (r = 0) then
        match py_floordiv (num_seeds h) nb with
        | inl e => inl e
        | inr w =>
            inr {| bins := bins0; hasher := h; band_width := w;
                   num_bands := nb; fingerprints := [] |}
        end
      else inl (AssertionError divisibility_msg)
  end.

(** ** Banding *)

(** [numpy.array_split(ary, n)] for an integer [n]: [n] sections, the first
    [len(ary) % n] of them one element longer than the others; numpy raises
    [ValueError] when [n <= 0]. *)
Fixpoint split_sizes {A : Type} (sizes : list nat) (ary : list A) : list (list A) :=
  match sizes with
  | [] => []
  | n :: sizes' => take n ary :: split_sizes sizes' (drop n ary)
  end.

Definition array_split {A : Type} (ary : list A) (n : Z) : exn + list (list A) :=
  if decide (n <= 0) then inl (ValueError "number sections must be larger than 0.")
  else
    let k := Z.to_nat n in
    let each := (length ary / k)%nat in
    let extras := (length ary `mod` k)%nat in
    inr (split_sizes (replicate extras (S each) ++ replicate (k - extras) each) ary).

(** [enumerate(xs)] *)
Definition enumerate {A : Type} (xs : list A) : list (nat * A) := imap pair xs.

(** [doc.encode('utf8')]: a [string] is already a sequence of bytes. *)
Definition encode_utf8 (doc : string) : string := doc.

(** [Cache.bins_(self, fingerprint)] *)
Definition bins_ (c : Cache) (fp : list Z) : exn + list (nat * list Z) :=
  match array_split fp (num_bands c) with
  | inl e => inl e
  | inr bands => inr (enumerate bands)
  end.

(** [Cache.clear(self)]; [hasher.fingerprint.cache_clear()] drops a memo
    table and does not change what [fingerprint] returns. *)
Definition clear (c : Cache) : Cache :=
  {| bins := replicate (Z.to_nat (num_bands c)) [];
     hasher := hasher c; band_width := band_width c;
     num_bands := num_bands c; fingerprints := fingerprints c |}.

Definition with_bins (c : Cache) (bs : list bucket_map) : Cache :=
  {| bins := bs; hasher := hasher c; band_width := band_width c;
     num_bands := num_bands c; fingerprints := fingerprints c |}.

Definition with_fingerprints (c : Cache) (fps : dict (option DocId) (list Z)) : Cache :=
  {| bins := bins c; hasher := hasher c; band_width := band_width c;
     num_bands := num_bands c; fingerprints := fps |}.

(** [doc_id is not None and doc_id in self.fingerprints] *)
Definition known (c : Cache) (doc_id : option DocId) : bool :=
  match doc_id with
  | Some _ => Dict.contains (fingerprints c) doc_id
  | None => false
  end.

(** [b[k].add(x)] on a [defaultdict(set)] *)
Definition bucket_add (b : bucket_map) (k : pykey) (x : option DocId) : bucket_map :=
  Dict.set b k (PySet.add x (default [] (Dict.get b k))).

(** [b[k]] on a [defaultdict(set)]: a missing key is inserted with an empty
    set. *)
Definition bucket_read (b : bucket_map) (k : pykey) : bucket_map * list (option DocId) :=
  match Dict.get b k with
  | Some ids => (b, ids)
  | None => (Dict.set b k [], [])
  end.

(** [itertools.combinations(xs, r=2)] *)
Fixpoint combinations2 {A : Type} (xs : list A) : list (A * A) :=
  match xs with
  | [] => []
  | x :: xs' => map (pair x) xs' ++ combinations2 xs'
  end.

(** [x > y] on similarity scores *)
Definition Qgtb (x y : Q) : bool := negb (Qle_bool x y).

Section cache.
(** Python's [hash] on [tuple(bucket)] *)
Variable py_hash : list Z → Z.

(** The loop of [update]: for each band, add the id to its bucket. *)
Fixpoint insert_bands (doc_id : option DocId) (bands : list (nat * list Z))
    (bs : list bucket_map) : list bucket_map * option exn :=
  match bands with
  | [] => (bs, None)
  | (bin_i, bucket) :: bands' =>
      match bs !! bin_i with
      | None => (bs, Some IndexError)
      | Some b =>
          let bucket_id := KInt (py_hash bucket) in
          insert_bands doc_id bands' (<[bin_i := bucket_add b bucket_id doc_id]> bs)
      end
  end.

(** [Cache.update(self, doc, doc_id)] *)
Definition update (c : Cache) (doc : string) (doc_id : option DocId) : Outcome unit :=
  let fp := fingerprint (hasher c) (encode_utf8 doc) in
  let lg := match doc_id with
            | Some i => if known c doc_id then [Warning_DuplicateId i] else []
            | None => []
            end in
  let c1 := with_fingerprints c (Dict.set (fingerprints c) doc_id fp) in
  match bins_ c1 fp with
  | inl e => {| state := c1; logged := lg; result := inl e |}
  | inr bands =>
      let '(bs, err) := insert_bands doc_id bands (bins c1) in
      {| state := with_bins c1 bs; logged := lg;
         result := match err with Some e => inl e | None => inr () end |}
  end.

(** The loop of [filter_candidates]. *)
Fixpoint filter_pairs (c : Cache) (pairs : list (option DocId * option DocId))
    (min_jaccard : Q) (res : list (option DocId * option DocId))
    : exn + list (option DocId * option DocId) :=
  match pairs with
  | [] => inr res
  | (id1, id2) :: pairs' =>
      match Dict.get (fingerprints c) id1, Dict.get (fingerprints c) id2 with
      | Some fp1, Some fp2 =>
          filter_pairs c pairs' min_jaccard
            (if Qgtb (jaccard (hasher c) fp1 fp2) min_jaccard
             then PySet.add (id1, id2) res else res)
      | _, _ => inl KeyError
      end
  end.

(** [Cache.filter_candidates(self, candidate_id_pairs, min_jaccard)]; the
    second [logging.info] is reached only when no lookup fails. *)
Definition filter_candidates (c : Cache)
    (candidate_id_pairs : list (option DocId * option DocId)) (min_jaccard : Q)
    : Outcome (list (option DocId * option DocId)) :=
  let n := length candidate_id_pairs in
  match filter_pairs c candidate_id_pairs min_jaccard [] with
  | inl e => {| state := c; logged := [Info_ComputingJaccard n]; result := inl e |}
  | inr res =>
      {| state := c;
         logged := [Info_ComputingJaccard n; Info_Keeping (length res) n];
         result := inr res |}
  end.

(** The loops of [get_all_duplicates]: buckets of one band, then all bands. *)
Definition bucket_pairs (b : bucket_map)
    (candidate_pairs : list (option DocId * option DocId))
    : list (option DocId * option DocId) :=
  foldl (λ acc bucket_id,
           let ids := default [] (Dict.get b bucket_id) in
           if decide (1 < length ids)%nat
           then PySet.update acc (PySet.of_list (combinations2 ids))
           else acc)
        candidate_pairs (Dict.keys b).

Definition all_candidate_pairs (bs : list bucket_map)
    : list (option DocId * option DocId) :=
  foldl (λ acc b, bucket_pairs b acc) [] bs.

(** [Cache.get_all_duplicates(self, min_jaccard=None)] *)
Definition get_all_duplicates (c : Cache) (min_jaccard : option Q)
    : Outcome (list (option DocId * option DocId)) :=
  let candidate_pairs := all_candidate_pairs (bins c) in
  match min_jaccard with
  | None => {| state := c; logged := []; result := inr candidate_pairs |}
  | Some t => filter_candidates c candidate_pairs t
  end.

(** The loop of [get_duplicates_of]: union of the buckets the bands of the
    fingerprint fall in; reading a missing bucket creates it. *)
Fixpoint collect_candidates (bands : list (nat * list Z)) (bs : list bucket_map)
    (candidates : list (option DocId))
    : list bucket_map * (exn + list (option DocId)) :=
  match bands with
  | [] => (bs, inr candidates)
  | (bin_i, bucket) :: bands' =>
      match bs !! bin_i with
      | None => (bs, inl IndexError)
      | Some b =>
          let bucket_id := KInt (py_hash bucket) in
          let '(b', ids) := bucket_read b bucket_id in
          collect_candidates bands' (<[bin_i := b']> bs) (PySet.update candidates ids)
      end
  end.

(** The set comprehension that ends [get_duplicates_of]. *)
Fixpoint filter_ids (c : Cache) (fp : list Z) (candidates : list (option DocId))
    (min_jaccard : Q) (res : list (option DocId)) : exn + list (option DocId) :=
  match candidates with
  | [] => inr res
  | x :: candidates' =>
      match Dict.get (fingerprints c) x with
      | None => inl KeyError
      | Some fpx =>
          filter_ids c fp candidates' min_jaccard
            (if Qgtb (jaccard (hasher c) fp fpx) min_jaccard
             then PySet.add x res else res)
      end
  end.

Definition must_provide_msg : string :=
  "Must provide a document or a know document id".

(** Lines 135-140 of [get_duplicates_of]: which fingerprint is queried. *)
Definition resolve_fingerprint (c : Cache) (doc : option string)
    (doc_id : option DocId) : exn + list Z :=
  if known c doc_id then
    match Dict.get (fingerprints c) doc_id with
    | Some fp => inr fp
    | None => inl KeyError
    end
  else
    match doc with
    | Some d => inr (fingerprint (hasher c) (encode_utf8 d))
    | None => inl (ValueError must_provide_msg)
    end.

(** Lines 142-152 of [get_duplicates_of], for the resolved fingerprint. *)
Definition duplicates_by_fingerprint (c : Cache) (fp : list Z)
    (min_jaccard : option Q) : Outcome (list (option DocId)) :=
  match bins_ c fp with
  | inl e => {| state := c; logged := []; result := inl e |}
  | inr bands =>
      let '(bs, r) := collect_candidates bands (bins c) [] in
      let c' := with_bins c bs in
      {| state := c'; logged := [];
         result := match r, min_jaccard with
                   | inl e, _ => inl e
                   | inr candidates, None => inr candidates
                   | inr candidates, Some t => filter_ids c' fp candidates t []
                   end |}
  end.

(** [Cache.get_duplicates_of(self, doc=None, doc_id=None, min_jaccard=None)] *)
Definition get_duplicates_of (c : Cache) (doc : option string)
    (doc_id : option DocId) (min_jaccard : option Q)
    : Outcome (list (option DocId)) :=
  match resolve_fingerprint c doc doc_id with
  | inl e => {| state := c; logged := []; result := inl e |}
  | inr fp => duplicates_by_fingerprint c fp min_jaccard
  end.

(** [Cache.is_duplicate(self, doc, doc_id=None)] *)
Definition is_duplicate (c : Cache) (doc : option string) (doc_id : option DocId)
    : Outcome bool :=
  if known c doc_id then {| state := c; logged := []; result := inr false |}
  else
    let o := get_duplicates_of c doc None None in
    {| state := state o; logged := logged o;
       result := match result o with
                 | inl e => inl e
                 | inr dups =>
                     inr (bool_decide (0 < length (PySet.difference dups [doc_id]))%nat)
                 end |}.

(** Every band listed has its bucket in [bs], and the bucket holds [x]. *)
Definition lands (bs : list bucket_map) (bands : list (nat * list Z))
    (x : option DocId) : Prop :=
  ∀ i band, (i, band) ∈ bands →
    ∃ b ids, bs !! i = Some b ∧ Dict.get b (KInt (py_hash band)) = Some ids ∧ x ∈ ids.


(** The id [x] sits in the bucket of each band of its stored fingerprint. *)
Definition indexed_id (c : Cache) (x : option DocId) : Prop :=
  ∀ fp bands, Dict.get (fingerprints c) x = Some fp → bins_ c fp = inr bands →
    lands (bins c) bands x.

(** The calls that change the state without removing anything: [update],
    and the two queries, whose reads create empty buckets. *)
Inductive call_step : Cache → Cache → Prop :=
| step_update c doc doc_id :
    call_step c (state (update c doc doc_id))
| step_get_duplicates_of c doc doc_id min_jaccard :
    call_step c (state (get_duplicates_of c doc doc_id min_jaccard))
| step_is_duplicate c doc doc_id :
    call_step c (state (is_duplicate c doc doc_id)).

(** States built from a fresh cache by any sequence of calls. *)
Inductive reachable (h : Hasher) (nb : Z) : Cache → Prop :=
| reachable_init c : Cache_init h nb = inr c → reachable h nb c
| reachable_step c c' : reachable h nb c → call_step c c' → reachable h nb c'
| reachable_clear c : reachable h nb c → reachable h nb (clear c).

(** The id [x] was registered by [update] in a reachable state, and [clear]
    has not been called since. *)
Inductive registered (h : Hasher) (nb : Z) : Cache → option DocId → Prop :=
| registered_update c doc x :
    reachable h nb c → registered h nb (state (update c doc x)) x
| registered_step c c' x :
    registered h nb c x → call_step c c' → registered h nb c' x.
End cache.

(** ** Persistence *)

(** What [Cache.jsonable] returns: a copy of [self.__dict__] with the sets
    turned into lists, the fingerprints into lists and, for a non-empty
    store, the type of its first key recorded. *)
Record Jsonable := {
  js_bins : list (dict pykey (list (option DocId)));
  js_hasher : Hasher;
  js_band_width : Z;
  js_num_bands : Z;
  js_fingerprints : dict (option DocId) (list Z);
  js_id_key_type : option string;
}.

(** What [json.load] reads back: the keys of every JSON object are strings. *)
Record JsonData := {
  jd_bins : list (dict string (list (option DocId)));
  jd_hasher : Hasher;
  jd_band_width : Z;
  jd_num_bands : Z;
  jd_fingerprints : dict string (list Z);
  jd_id_key_type : option string;
}.

(** Modelled from the spec: [MinHasher.jsonable] and
    [MinHasher.from_json_str] live in [lsh/minhash.py], which is not part of
    the sources at hand.  Section 4.1 of the specification says that
    exporting and importing the configuration reproduces identical
    fingerprints, so the exported configuration is modelled as the hasher
    itself. *)
Definition hasher_jsonable (h : Hasher) : Hasher := h.
Definition MinHasher_from_json_str (j : Hasher) : Hasher := j.

(** [Cache.jsonable(self)] *)
Definition jsonable (c : Cache) : Jsonable :=
  {| js_bins := bins c;
     js_hasher := hasher_jsonable (hasher c);
     js_band_width := band_width c;
     js_num_bands := num_bands c;
     js_fingerprints := fingerprints c;
     js_id_key_type :=
       match Dict.keys (fingerprints c) with
       | [] => None
       | Some (IdStr _) :: _ => Some "str"
       | Some (IdInt _) :: _ => Some "int"
       | None :: _ => None
       end |}.

(** How [json.dump] writes a key of a dict: a [str] as it is, an [int] in
    decimal, [None] as [null]. *)
Definition json_key_of_pykey (k : pykey) : string :=
  match k with
  | KInt z => pretty z
  | KStr s => s
  end.

Definition json_key_of_id (k : option DocId) : string :=
  match k with
  | Some (IdInt z) => pretty z
  | Some (IdStr s) => s
  | None => "null"
  end.

(** [json.load] of an object: of two equal keys the last value is kept. *)
Definition json_object {K V : Type} (key : K → string) (d : dict K V) : dict string V :=
  Dict.of_items (map (λ kv, (key kv.1, kv.2)) d).

(** [Cache.to_json(self, path)] followed by [json.load] of the file written. *)
Definition to_json (c : Cache) : JsonData :=
  let d := jsonable c in
  {| jd_bins := map (json_object json_key_of_pykey) (js_bins d);
     jd_hasher := js_hasher d;
     jd_band_width := js_band_width d;
     jd_num_bands := js_num_bands d;
     jd_fingerprints := json_object json_key_of_id (js_fingerprints d);
     jd_id_key_type := js_id_key_type d |}.

(** [int(s)] for a string of decimal digits with an optional sign.  (Python
    also accepts surrounding blanks and underscores between digits, which a
    one-character argument cannot contain.) *)
Definition digit_of_ascii (a : ascii) : option Z :=
  let n := Z.of_N (N_of_ascii a) in
  if decide (48 <= n <= 57) then Some (n - 48) else None.

Fixpoint digits_value (s : string) (acc : Z) : option Z :=
  match s with
  | EmptyString => Some acc
  | String a s' =>
      match digit_of_ascii a with
      | Some d => digits_value s' (10 * acc + d)
      | None => None
      end
  end.

Definition invalid_literal_msg : string := "invalid literal for int() with base 10".

Definition py_int (s : string) : exn + Z :=
  let unsigned (t : string) : option Z :=
    match t with
    | EmptyString => None
    | _ => digits_value t 0
    end in
  let r := match s with
           | String "-" t => Z.opp <$> unsigned t
           | String "+" t => unsigned t
           | _ => unsigned s
           end in
  match r with
  | Some z => inr z
  | None => inl (ValueError invalid_literal_msg)
  end.

(** The table [key_typecast] of [from_json] and its lookup. *)
Definition key_typecast (id_key_type : string) : exn + (string → exn + option DocId) :=
  if decide (id_key_type = "int") then
    inr (λ s, match py_int s with inl e => inl e | inr z => inr (Some (IdInt z)) end)
  else if decide (id_key_type = "str") then inr (λ s, inr (Some (IdStr s)))
  else if decide (id_key_type = "") then inr (λ s, inr (Some (IdStr s)))
  else inl KeyError.

(** [{func(k[0]): np.array(v) for k, v in data['fingerprints'].items()}] *)
Fixpoint cast_fingerprints (func : string → exn + option DocId)
    (items : dict string (list Z)) (acc : dict (option DocId) (list Z))
    : exn + dict (option DocId) (list Z) :=
  match items with
  | [] => inr acc
  | (k, v) :: items' =>
      match k with
      | EmptyString => inl IndexError
      | String k0 _ =>
          match func (String k0 EmptyString) with
          | inl e => inl e
          | inr key => cast_fingerprints func items' (Dict.set acc key v)
          end
      end
  end.

(** [Cache.from_json(path)], on the data read from the file. *)
Definition from_json (data : JsonData) : exn + Cache :=
  match Cache_init (MinHasher_from_json_str (jd_hasher data)) (jd_num_bands data) with
  | inl e => inl e
  | inr cache =>
      let bins' : list bucket_map :=
        map (λ bin : dict string (list (option DocId)),
               Dict.of_items (map (λ kv, (KStr kv.1, PySet.of_list kv.2)) bin))
            (jd_bins data) in
      match key_typecast (default "" (jd_id_key_type data)) with
      | inl e => inl e
      | inr func =>
          match cast_fingerprints func (jd_fingerprints data) [] with
          | inl e => inl e
          | inr fps => inr (with_fingerprints (with_bins cache bins') fps)
          end
      end
  end.

(** ** Vocabulary of the properties *)

(** The configuration error of the constructor is its failed [assert]. *)
Definition is_ConfigurationError (r : exn + Cache) : Prop :=
  ∃ msg, r = inl (AssertionError msg).

(** The construction property read literally: success with the exact
    quotient when [num_seeds % num_bands == 0] holds, a configuration error
    in every other case. *)
Definition init_divisible_or_configuration_error (h : Hasher) (nb : Z) : Prop :=
  (py_mod (num_seeds h) nb = inr 0 →
     ∃ c, Cache_init h nb = inr c ∧ band_width c * nb = num_seeds h)
  ∧ (py_mod (num_seeds h) nb ≠ inr 0 → is_ConfigurationError (Cache_init h nb)).

(** Two ids share a bucket of some band. *)
Definition co_bucketed (bs : list bucket_map) (a b : option DocId) : Prop :=
  ∃ bin k ids, bin ∈ bs ∧ Dict.get bin k = Some ids ∧ a ∈ ids ∧ b ∈ ids.

(** Every set stored in a bucket mapping has no repeated member. *)
Definition sets_NoDup (bs : list bucket_map) : Prop :=
  ∀ bin k ids, bin ∈ bs → (k, ids) ∈ bin → NoDup ids.

(** Every id found in a bucket has a fingerprint in the store. *)
Definition ids_in_store (c : Cache) : Prop :=
  ∀ bin k ids x, bin ∈ bins c → (k, ids) ∈ bin → x ∈ ids →
    is_Some (Dict.get (fingerprints c) x).

(** The stored fingerprints of a pair score above the threshold. *)
Definition scores_above (c : Cache) (t : Q) (p : option DocId * option DocId) : Prop :=
  ∃ fp1 fp2, Dict.get (fingerprints c) p.1 = Some fp1
             ∧ Dict.get (fingerprints c) p.2 = Some fp2
             ∧ (t < jaccard (hasher c) fp1 fp2)%Q.

(** A usable index state: a positive number of bands, one bucket mapping per
    band, and sets without repeated members.  The constructor establishes it
    for a positive [num_bands]; with a negative one every [update] raises. *)
Record well_formed (c : Cache) : Prop := {
  wf_num_bands : 0 < num_bands c;
  wf_bins_length : length (bins c) = Z.to_nat (num_bands c);
  wf_sets : sets_NoDup (bins c);
}.

(** Every id held in some bucket satisfies [P]. *)
Definition all_ids (P : option DocId → Prop) (bs : list bucket_map) : Prop :=
  ∀ bin k ids x, bin ∈ bs → (k, ids) ∈ bin → x ∈ ids → P x.

(** The second index grew out of the first: same number of bands, every
    bucket still there with at least the same members. *)
Definition bins_le (bs bs' : list bucket_map) : Prop :=
  length bs = length bs'
  ∧ ∀ i b k ids, bs !! i = Some b → Dict.get b k = Some ids →
      ∃ b' ids', bs' !! i = Some b' ∧ Dict.get b' k = Some ids' ∧ ids ⊆ ids'.

(** One bucket mapping per band. *)
Definition shape_ok (c : Cache) : Prop :=
  length (bins c) = Z.to_nat (num_bands c).

(** No bucket is reachable through an integer key, except empty ones. *)
Definition int_buckets_empty (bs : list bucket_map) : Prop :=
  ∀ bin z ids, bin ∈ bs → Dict.get bin (KInt z) = Some ids → ids = [].


(** Every band index is within the list of bucket mappings. *)
Definition in_range (bands : list (nat * list Z)) (bs : list bucket_map) : Prop :=
  ∀ i band, (i, band) ∈ bands → (i < length bs)%nat.

(** The members of bucket [k] of band [i]; a bucket that does not exist has
    none (what [self.bins[i][k]] evaluates to on the [defaultdict]). *)
Definition bucket_ids (bs : list bucket_map) (i : nat) (k : pykey)
    : list (option DocId) :=
  default [] (bs !! i ≫= λ b, Dict.get b k).

(** A bucket mapping as Python builds it from integer hashes: no key twice,
    every key an [int]. *)
Definition int_keyed (b : bucket_map) : Prop :=
  NoDup (Dict.keys b) ∧ ∀ k, k ∈ Dict.keys b → ∃ z, k = KInt z.

(** The idempotence property read literally, for any [doc_id] argument: the
    second of two identical calls of [update] leaves the bucket mappings as
    the first left them and emits a duplicate-id warning. *)
Definition repeated_update_warns (py_hash : list Z → Z) (c : Cache) (doc : string)
    (doc_id : option DocId) : Prop :=
  let o1 := update py_hash c doc doc_id in
  let o2 := update py_hash (state o1) doc doc_id in
  bins (state o2) = bins (state o1) ∧ ∃ i, Warning_DuplicateId i ∈ logged o2.

(** ** Concrete objects used to run the model *)

Module Example.
(** A hasher with two seeds: the codes of the first two bytes of the
    document (0 where the document is shorter); the similarity of two
    fingerprints is the fraction of positions where they agree. *)
Definition byte_at (doc : string) (i : nat) : Z :=
  match String.get i doc with
  | Some a => Z.of_N (N_of_ascii a)
  | None => 0
  end.

Definition agreement (fp1 fp2 : list Z) : Q :=
  let same := filter (λ p, p.1 = p.2) (zip fp1 fp2) in
  Qmake (Z.of_nat (length same)) (Pos.of_nat (length fp1)).

Definition hasher2 : Hasher :=
  {| num_seeds := 2;
     fingerprint := λ doc, [byte_at doc 0; byte_at doc 1];
     jaccard := agreement |}.

(** A deterministic stand-in for Python's hash of a tuple of integers. *)
Definition hash31 (bucket : list Z) : Z :=
  foldl (λ h x, 31 * h + x) 7 bucket.

Definition new_cache (nb : Z) : Cache :=
  match Cache_init hasher2 nb with
  | inr c => c
  | inl _ => {| bins := []; hasher := hasher2; band_width := 0;
                num_bands := nb; fingerprints := [] |}
  end.
(** Three registrations that leave ids 0 and 8 together in a bucket of band
    0 (filled in the order 8, 0) and in a bucket of band 1 (filled in the
    order 0, 8):
    [update("py", 0); update("xy", 8); update("xz", 0)] on
    [Cache(hasher2, num_bands=2)].  In CPython the integers 0 and 8 fall in
    the same slot of a fresh set's table, so the one added first is iterated
    first, as in the model. *)
Definition first_call : Cache :=
  state (update hash31 (new_cache 2) "py" (Some (IdInt 0))).

Definition second_call : Cache :=
  state (update hash31 first_call "xy" (Some (IdInt 8))).

Definition both_orders : Cache :=
  state (update hash31 second_call "xz" (Some (IdInt 0))).

(** One registration: [update("ab", 1)] on [Cache(hasher2, num_bands=2)]. *)
Definition one_doc : Cache :=
  state (update hash31 (new_cache 2) "ab" (Some (IdInt 1))).

(** One registration under a two-digit id: [update("ab", 12)]. *)
Definition two_digits : Cache :=
  state (update hash31 (new_cache 2) "ab" (Some (IdInt 12))).
(** The cache read back from the export of [one_doc]. *)
Definition imported_one_doc : Cache :=
  match from_json (to_json one_doc) with
  | inr c => c
  | inl _ => new_cache 2
  end.

(** One registration under a negative id: [update("ab", -5)]. *)
Definition negative_id : Cache :=
  state (update hash31 (new_cache 2) "ab" (Some (IdInt (-5)))).
(** The cache read back from the export of [both_orders]. *)
Definition imported_both_orders : Cache :=
  match from_json (to_json both_orders) with
  | inr c => c
  | inl _ => new_cache 2
  end.
End Example.

(** ** The iteration order of a small CPython set *)

Module CPythonSet.
(** After [set_add_entry] of CPython's [Objects/setobject.c], for integer
    keys in a table of [PySet_MINSIZE = 8] slots that does not grow (fewer
    than five keys).  The hash of a small non-negative [int] is the integer
    itself; with a mask of 7 the linear probes are skipped, and a taken slot
    sends the key to slot [(i * 5 + 1 + perturb) & mask], where [perturb] is
    the hash shifted right by 5 bits at each step.  Iterating a set walks
    the table from slot 0. *)
Definition mask : Z := 7.

Definition PERTURB_SHIFT : Z := 5.

Fixpoint probe (fuel : nat) (table : list (option Z)) (key i perturb : Z)
    : list (option Z) :=
  match fuel with
  | O => table
  | S fuel' =>
      match table !! Z.to_nat i with
      | Some None => <[Z.to_nat i := Some key]> table
      | Some (Some k) =>
          if decide (k = key) then table
          else
            let perturb' := Z.shiftr perturb PERTURB_SHIFT in
            probe fuel' table key (Z.land (i * 5 + 1 + perturb') mask) perturb'
      | None => table
      end
  end.

Definition empty : list (option Z) := replicate 8 None.

Definition add (key : Z) (table : list (option Z)) : list (option Z) :=
  probe 64 table key (Z.land key mask) key.

Definition iterate (table : list (option Z)) : list Z := omap id table.
End CPythonSet.

(** * Properties *)

(** ** Sets and dicts *)

Module PySetFacts.
Section facts.
Context {A : Type} `{EqDecision A}.
Implicit Types (x y : A) (s t xs : list A).

Lemma elem_of_add x y s : y ∈ PySet.add x s ↔ y = x ∨ y ∈ s.
Proof.
  unfold PySet.add. case_decide as Hx.
  - split; [auto | intros [-> | ?]; auto].
  - rewrite elem_of_app, list_elem_of_singleton. tauto.
Qed.

Lemma add_present x s : x ∈ s → PySet.add x s = s.
Proof. intros Hx. unfold PySet.add. by rewrite decide_True. Qed.

Lemma NoDup_add x s : NoDup s → NoDup (PySet.add x s).
Proof.
  intros Hs. unfold PySet.add. case_decide as Hx; [done|].
  apply NoDup_app. split_and!; [done | | apply NoDup_singleton].
  intros y Hy ->%list_elem_of_singleton. done.
Qed.

Lemma filter_eq_absent x s : x ∉ s → filter (λ y, y = x) s = [].
Proof.
  induction s as [|z s IH]; [done|].
  intros [Hz Hs]%not_elem_of_cons. rewrite filter_cons, decide_False by done.
  by apply IH.
Qed.

Lemma elem_of_update s xs y : y ∈ PySet.update s xs ↔ y ∈ s ∨ y ∈ xs.
Proof.
  unfold PySet.update. revert s. induction xs as [|x xs IH]; intros s; simpl.
  - rewrite elem_of_nil. tauto.
  - rewrite IH, elem_of_add, elem_of_cons. tauto.
Qed.

Lemma NoDup_update s xs : NoDup s → NoDup (PySet.update s xs).
Proof.
  unfold PySet.update. revert s. induction xs as [|x xs IH]; intros s Hs; simpl.
  - done.
  - by apply IH, NoDup_add.
Qed.

Lemma elem_of_of_list xs y : y ∈ PySet.of_list xs ↔ y ∈ xs.
Proof. unfold PySet.of_list. rewrite elem_of_update, elem_of_nil. tauto. Qed.

Lemma NoDup_of_list xs : NoDup (PySet.of_list xs).
Proof. apply NoDup_update, NoDup_nil_2. Qed.

Lemma elem_of_difference s t y : y ∈ PySet.difference s t ↔ y ∈ s ∧ y ∉ t.
Proof. unfold PySet.difference. rewrite list_elem_of_filter. tauto. Qed.
End facts.
End PySetFacts.

Module DictFacts.
Section facts.
Context {K V : Type} `{EqDecision K}.
Implicit Types (d : list (K * V)) (k : K) (v : V).

Lemma get_set_eq d k v : Dict.get (Dict.set d k v) k = Some v.
Proof.
  induction d as [|[k' v'] d IH]; simpl.
  - by rewrite decide_True.
  - case_decide as Hk; simpl.
    + subst. by rewrite decide_True.
    + by rewrite decide_False.
Qed.

Lemma get_set_ne d k k' v : k ≠ k' → Dict.get (Dict.set d k v) k' = Dict.get d k'.
Proof.
  intros Hne. induction d as [|[k1 v1] d IH]; simpl.
  - by rewrite decide_False.
  - destruct (decide (k = k1)) as [->|Hk]; simpl.
    + by rewrite !decide_False.
    + case_decide; [done | apply IH].
Qed.

Lemma set_get_id d k v : Dict.get d k = Some v → Dict.set d k v = d.
Proof.
  induction d as [|[k1 v1] d IH]; simpl; [done|].
  case_decide as Hk.
  - by intros [= ->].
  - intros Hg. by rewrite IH.
Qed.

Lemma get_Some_elem_of d k v : Dict.get d k = Some v → (k, v) ∈ d.
Proof.
  induction d as [|[k1 v1] d IH]; simpl; [done|].
  case_decide as Hk.
  - intros [= ->]. subst. apply elem_of_cons. by left.
  - intros Hg. apply elem_of_cons. right. by apply IH.
Qed.

Lemma elem_of_keys_get d k : k ∈ Dict.keys d ↔ is_Some (Dict.get d k).
Proof.
  unfold Dict.keys. induction d as [|[k1 v1] d IH]; simpl.
  - rewrite elem_of_nil. split; [done | by intros [? ?]].
  - rewrite elem_of_cons, IH. case_decide as Hk.
    + split; [eauto | auto].
    + split; [by intros [?|?] | auto].
Qed.

Lemma contains_get d k : Dict.contains d k = true ↔ is_Some (Dict.get d k).
Proof. unfold Dict.contains. apply bool_decide_eq_true. Qed.

Lemma elem_of_set d k v k' v' :
  (k', v') ∈ Dict.set d k v → (k' = k ∧ v' = v) ∨ (k', v') ∈ d.
Proof.
  induction d as [|[k1 v1] d IH]; simpl.
  - intros [= -> ->]%list_elem_of_singleton. by left.
  - case_decide as Hk.
    + subst k1. intros [[= -> ->]|Hin]%elem_of_cons; [by left|].
      right. apply elem_of_cons. by right.
    + intros [[= -> ->]|Hin]%elem_of_cons.
      * right. apply elem_of_cons. by left.
      * destruct (IH Hin) as [?|?]; [by left|]. right. apply elem_of_cons. by right.
Qed.
End facts.
End DictFacts.

(** ** Pairs of a bucket *)

Section combinations.
Context {A : Type}.
Implicit Types (a b : A) (xs : list A).

Lemma elem_of_combinations2 a b xs :
  (a, b) ∈ combinations2 xs → a ∈ xs ∧ b ∈ xs.
Proof.
  induction xs as [|x xs IH]; simpl.
  - by intros ?%elem_of_nil.
  - rewrite elem_of_app, list_elem_of_fmap.
    intros [(y & [= -> ->] & Hy) | Hin].
    + split; apply elem_of_cons; auto.
    + destruct (IH Hin). split; apply elem_of_cons; auto.
Qed.

Lemma combinations2_distinct a b xs :
  NoDup xs → (a, b) ∈ combinations2 xs → a ≠ b.
Proof.
  induction xs as [|x xs IH]; simpl.
  - by intros _ ?%elem_of_nil.
  - intros [Hx Hnd]%NoDup_cons. rewrite elem_of_app, list_elem_of_fmap.
    intros [(y & [= -> ->] & Hy) | Hin]; [|by apply IH].
    intros <-. done.
Qed.

Lemma combinations2_complete a b xs :
  a ∈ xs → b ∈ xs → a ≠ b →
  (a, b) ∈ combinations2 xs ∨ (b, a) ∈ combinations2 xs.
Proof.
  induction xs as [|x xs IH]; simpl.
  - by intros ?%elem_of_nil.
  - intros [->|Ha]%elem_of_cons [->|Hb]%elem_of_cons Hne; try done.
    + left. apply elem_of_app. left. apply list_elem_of_fmap. eauto.
    + right. apply elem_of_app. left. apply list_elem_of_fmap. eauto.
    + destruct (IH Ha Hb Hne); [left | right]; apply elem_of_app; by right.
Qed.
End combinations.

(** ** Construction *)

(** C4, counterexample: with [num_bands = 0] the expression
    [hasher.num_seeds % num_bands] raises [ZeroDivisionError] before the
    [assert] is reached, so construction fails, but not with the
    configuration error. *)
Lemma init_zero_bands_counterexample :
  Cache_init Example.hasher2 0 = inl ZeroDivisionError
  ∧ ¬ init_divisible_or_configuration_error Example.hasher2 0.
Proof.
  split; [reflexivity|].
  intros [_ Herr]. destruct Herr as [msg Hmsg]; [|discriminate Hmsg].
  unfold py_mod. simpl. discriminate.
Qed.

(** C4 (amended): for [num_bands ≠ 0], construction succeeds exactly when
    [num_seeds % num_bands == 0], then with
    [band_width = num_seeds / num_bands] (an exact quotient), empty buckets
    and an empty store, and fails with the assertion's error otherwise; for
    [num_bands = 0] it fails with [ZeroDivisionError]. *)
Theorem Cache_init_spec (h : Hasher) (nb : Z) :
  (nb ≠ 0 → num_seeds h `mod` nb = 0 →
     ∃ c, Cache_init h nb = inr c
          ∧ band_width c = num_seeds h `div` nb
          ∧ band_width c * nb = num_seeds h
          ∧ num_bands c = nb ∧ hasher c = h
          ∧ bins c = replicate (Z.to_nat nb) [] ∧ fingerprints c = [])
  ∧ (nb ≠ 0 → num_seeds h `mod` nb ≠ 0 →
     Cache_init h nb = inl (AssertionError divisibility_msg))
  ∧ (nb = 0 → Cache_init h nb = inl ZeroDivisionError).
Proof.
  unfold Cache_init, py_mod, py_floordiv. split_and!.
  - intros Hnb Hmod. destruct (decide (nb = 0)) as [|_]; [done|].
    destruct (decide (num_seeds h `mod` nb = 0)) as [_|]; [|done].
    eexists. split; [reflexivity|]. simpl. split_and!; try done.
    pose proof (Z.div_mod (num_seeds h) nb Hnb) as Hdm. lia.
  - intros Hnb Hmod. destruct (decide (nb = 0)) as [|_]; [done|].
    by destruct (decide (num_seeds h `mod` nb = 0)).
  - intros ->. done.
Qed.

Lemma Cache_init_spec_witness :
  (∃ c, Cache_init Example.hasher2 2 = inr c ∧ band_width c = 1)
  ∧ Cache_init Example.hasher2 3 = inl (AssertionError divisibility_msg)
  ∧ Cache_init Example.hasher2 0 = inl ZeroDivisionError.
Proof.
  split_and!.
  - destruct (Cache_init_spec Example.hasher2 2) as (Hok & _ & _).
    destruct Hok as (c & Hc & Hw & _); [lia | reflexivity |].
    exists c. split; [exact Hc | rewrite Hw; reflexivity].
  - destruct (Cache_init_spec Example.hasher2 3) as (_ & Hbad & _).
    apply Hbad; [lia | vm_compute; discriminate].
  - destruct (Cache_init_spec Example.hasher2 0) as (_ & _ & Hzero).
    apply Hzero. reflexivity.
Defined.

(** ** Candidate pairs *)

Section candidate_pairs.
Import PySetFacts DictFacts.
Implicit Types (b : bucket_map) (bs : list bucket_map)
  (p : option DocId * option DocId).

Lemma elem_of_bucket_pairs_keys b ks acc p :
  p ∈ foldl (λ acc bucket_id,
               let ids := default [] (Dict.get b bucket_id) in
               if decide (1 < length ids)%nat
               then PySet.update acc (PySet.of_list (combinations2 ids))
               else acc) acc ks
  ↔ p ∈ acc ∨ ∃ k ids, k ∈ ks ∧ Dict.get b k = Some ids
                        ∧ (1 < length ids)%nat ∧ p ∈ combinations2 ids.
Proof.
  revert acc. induction ks as [|k ks IH]; intros acc; simpl.
  - split; [auto | intros [?|(k & ids & []%elem_of_nil & _)]; done].
  - rewrite IH. clear IH. split.
    + intros [Hacc | (k' & ids & Hk' & Hget & Hlen & Hp)].
      * destruct (Dict.get b k) as [ids|] eqn:Hget; simpl in Hacc.
        -- case_decide as Hlen; [|by left].
           apply elem_of_update in Hacc as [?|Hp]; [by left|].
           rewrite elem_of_of_list in Hp. right. exists k, ids.
           split_and!; [apply elem_of_cons; by left | done..].
        -- by left.
      * right. exists k', ids. split_and!; [apply elem_of_cons; by right | done..].
    + intros [Hacc | (k' & ids & Hk' & Hget & Hlen & Hp)].
      * left. case_decide; [|done]. apply elem_of_update. by left.
      * apply elem_of_cons in Hk' as [->|Hk'].
        -- left. rewrite Hget. simpl. rewrite decide_True by done.
           apply elem_of_update. right. by apply elem_of_of_list.
        -- right. exists k', ids. done.
Qed.

Lemma elem_of_bucket_pairs b acc p :
  p ∈ bucket_pairs b acc
  ↔ p ∈ acc ∨ ∃ k ids, Dict.get b k = Some ids
                        ∧ (1 < length ids)%nat ∧ p ∈ combinations2 ids.
Proof.
  unfold bucket_pairs. rewrite elem_of_bucket_pairs_keys. split.
  - intros [?|(k & ids & _ & ?)]; [by left | right; by exists k, ids].
  - intros [?|(k & ids & Hget & ?)]; [by left|]. right. exists k, ids.
    split; [|done]. apply elem_of_keys_get. by rewrite Hget.
Qed.


Lemma elem_of_all_candidate_pairs_acc bs acc p :
  p ∈ foldl (λ acc b, bucket_pairs b acc) acc bs
  ↔ p ∈ acc ∨ ∃ bin k ids, bin ∈ bs ∧ Dict.get bin k = Some ids
                            ∧ (1 < length ids)%nat ∧ p ∈ combinations2 ids.
Proof.
  revert acc. induction bs as [|b bs IH]; intros acc; simpl.
  - split; [auto | intros [?|(bin & k & ids & []%elem_of_nil & _)]; done].
  - rewrite IH, elem_of_bucket_pairs. split.
    + intros [[?|(k & ids & ?)] | (bin & k & ids & Hbin & ?)].
      * by left.
      * right. exists b, k, ids. split; [apply elem_of_cons; by left | done].
      * right. exists bin, k, ids. split; [apply elem_of_cons; by right | done].
    + intros [? | (bin & k & ids & [->|Hbin]%elem_of_cons & ?)].
      * left. by left.
      * left. right. by exists k, ids.
      * right. by exists bin, k, ids.
Qed.

Lemma elem_of_all_candidate_pairs bs p :
  p ∈ all_candidate_pairs bs
  ↔ ∃ bin k ids, bin ∈ bs ∧ Dict.get bin k = Some ids
                  ∧ (1 < length ids)%nat ∧ p ∈ combinations2 ids.
Proof.
  unfold all_candidate_pairs. rewrite elem_of_all_candidate_pairs_acc.
  rewrite elem_of_nil. tauto.
Qed.


Lemma candidate_pair_co_bucketed bs a a' :
  (a, a') ∈ all_candidate_pairs bs → co_bucketed bs a a'.
Proof.
  intros (bin & k & ids & Hbin & Hget & _ & Hp)%elem_of_all_candidate_pairs.
  apply elem_of_combinations2 in Hp as [? ?]. by exists bin, k, ids.
Qed.

Lemma candidate_pair_distinct bs a a' :
  sets_NoDup bs → (a, a') ∈ all_candidate_pairs bs → a ≠ a'.
Proof.
  intros Hnd (bin & k & ids & Hbin & Hget & _ & Hp)%elem_of_all_candidate_pairs.
  eapply combinations2_distinct; [|done].
  eapply Hnd; [done|]. by apply get_Some_elem_of.
Qed.

Lemma co_bucketed_candidate_pair bs a a' :
  a ≠ a' → co_bucketed bs a a' →
  (a, a') ∈ all_candidate_pairs bs ∨ (a', a) ∈ all_candidate_pairs bs.
Proof.
  intros Hne (bin & k & ids & Hbin & Hget & Ha & Hb).
  assert (1 < length ids)%nat as Hlen.
  { destruct ids as [|x [|y ids]]; simpl; [by apply elem_of_nil in Ha | | lia].
    apply list_elem_of_singleton in Ha, Hb. congruence. }
  destruct (combinations2_complete a a' ids Ha Hb Hne); [left | right];
    apply elem_of_all_candidate_pairs; by exists bin, k, ids.
Qed.
End candidate_pairs.

(** ** Exact filtering *)

Lemma Qgtb_lt (x y : Q) : Qgtb x y = true ↔ (y < x)%Q.
Proof.
  unfold Qgtb. rewrite negb_true_iff. split.
  - intros Hle. apply Qnot_le_lt. intros Hxy%Qle_bool_iff. congruence.
  - intros Hlt. destruct (Qle_bool x y) eqn:Hle; [|done].
    apply Qle_bool_iff in Hle. by apply Qlt_not_le in Hlt.
Qed.

Section filtering.
Import PySetFacts DictFacts.
Implicit Types (c : Cache) (t : Q) (p : option DocId * option DocId).

Lemma filter_pairs_elem_of c pairs t res R p :
  filter_pairs c pairs t res = inr R →
  p ∈ R ↔ p ∈ res ∨ (p ∈ pairs ∧ scores_above c t p).
Proof.
  revert res. induction pairs as [|[id1 id2] pairs IH]; intros res; simpl.
  - intros [= <-]. rewrite elem_of_nil. tauto.
  - destruct (Dict.get (fingerprints c) id1) as [fp1|] eqn:H1; [|done].
    destruct (Dict.get (fingerprints c) id2) as [fp2|] eqn:H2; [|done].
    intros HR. rewrite (IH _ HR). clear IH HR. rewrite elem_of_cons.
    destruct (Qgtb (jaccard (hasher c) fp1 fp2) t) eqn:Hgt.
    + rewrite elem_of_add. apply Qgtb_lt in Hgt. split; [|tauto].
      intros [[->|?]|?]; [|tauto..]. right. split; [by left|].
      exists fp1, fp2. done.
    + split; [tauto|]. intros [?|[[->|?] Hs]]; [tauto| |tauto].
      destruct Hs as (f1 & f2 & Hf1 & Hf2 & Hlt). simpl in *.
      assert (f1 = fp1) as -> by congruence.
      assert (f2 = fp2) as -> by congruence.
      apply Qgtb_lt in Hlt. congruence.
Qed.

Lemma filter_pairs_NoDup c pairs t res R :
  filter_pairs c pairs t res = inr R → NoDup res → NoDup R.
Proof.
  revert res. induction pairs as [|[id1 id2] pairs IH]; intros res; simpl.
  - by intros [= <-].
  - destruct (Dict.get (fingerprints c) id1) as [fp1|]; [|done].
    destruct (Dict.get (fingerprints c) id2) as [fp2|]; [|done].
    intros HR Hres. apply (IH _ HR). case_match; [by apply NoDup_add | done].
Qed.

Lemma filter_pairs_total c pairs t res :
  (∀ a b, (a, b) ∈ pairs →
     is_Some (Dict.get (fingerprints c) a) ∧ is_Some (Dict.get (fingerprints c) b)) →
  ∃ R, filter_pairs c pairs t res = inr R.
Proof.
  revert res. induction pairs as [|[id1 id2] pairs IH]; intros res Hin; simpl.
  - eauto.
  - destruct (Hin id1 id2) as [[fp1 ->] [fp2 ->]]; [apply elem_of_cons; by left|].
    apply IH. intros a b Hab. apply Hin, elem_of_cons. by right.
Qed.

Lemma filter_pairs_error c pairs t res e :
  filter_pairs c pairs t res = inl e → e = KeyError.
Proof.
  revert res. induction pairs as [|[id1 id2] pairs IH]; intros res; simpl; [done|].
  destruct (Dict.get (fingerprints c) id1); [|by intros [= <-]].
  destruct (Dict.get (fingerprints c) id2); [|by intros [= <-]].
  apply IH.
Qed.

Lemma result_filter_candidates c pairs t :
  result (filter_candidates c pairs t) = filter_pairs c pairs t [].
Proof. unfold filter_candidates. by destruct (filter_pairs c pairs t []). Qed.

Lemma ids_in_store_candidate_pairs c a b :
  ids_in_store c → (a, b) ∈ all_candidate_pairs (bins c) →
  is_Some (Dict.get (fingerprints c) a) ∧ is_Some (Dict.get (fingerprints c) b).
Proof.
  intros Hinv (bin & k & ids & Hbin & Hget & Ha & Hb)%candidate_pair_co_bucketed.
  apply get_Some_elem_of in Hget. split; by eapply Hinv.
Qed.

(** C5: with a threshold [t], [get_all_duplicates] returns exactly the
    candidate pairs of the unfiltered call whose stored fingerprints have a
    Jaccard estimate strictly greater than [t]: a subset of the unfiltered
    result, every pair of it scoring above [t].  The call returns (no
    lookup fails) whenever every bucketed id is in the store. *)
Theorem get_all_duplicates_filtered c t :
  (ids_in_store c → ∃ R, result (get_all_duplicates c (Some t)) = inr R)
  ∧ (∀ R, result (get_all_duplicates c (Some t)) = inr R →
       ∃ All, result (get_all_duplicates c None) = inr All
              ∧ R ⊆ All
              ∧ NoDup R
              ∧ (∀ p, p ∈ R ↔ p ∈ All ∧ scores_above c t p)
              ∧ (∀ a b, (a, b) ∈ R →
                   ∃ fa fb, Dict.get (fingerprints c) a = Some fa
                            ∧ Dict.get (fingerprints c) b = Some fb
                            ∧ (t < jaccard (hasher c) fa fb)%Q)).
Proof.
  simpl. rewrite result_filter_candidates. split.
  - intros Hinv. apply filter_pairs_total. intros a b.
    by apply ids_in_store_candidate_pairs.
  - intros R HR. exists (all_candidate_pairs (bins c)).
    assert (∀ p, p ∈ R ↔ p ∈ all_candidate_pairs (bins c) ∧ scores_above c t p)
      as Hchar.
    { intros p. rewrite (filter_pairs_elem_of _ _ _ _ _ p HR), elem_of_nil. tauto. }
    split_and!; [done | | | done |].
    + intros p Hp. by apply Hchar in Hp as [? _].
    + eapply filter_pairs_NoDup; [done | apply NoDup_nil_2].
    + intros a b Hab. by apply Hchar in Hab as [_ ?].
Qed.
End filtering.

(** ** Banding and the bucket index *)

Section banding.
Import PySetFacts DictFacts.
Context {A : Type}.
Implicit Types (ary : list A) (sizes : list nat).

Lemma length_split_sizes sizes ary : length (split_sizes sizes ary) = length sizes.
Proof. revert ary. induction sizes as [|n sizes IH]; intros ary; simpl; [done | by rewrite IH]. Qed.

Lemma array_split_Some ary n sections :
  array_split ary n = inr sections → 0 < n ∧ length sections = Z.to_nat n.
Proof.
  unfold array_split. case_decide as Hn; [done|]. intros [= <-].
  split; [lia|]. rewrite length_split_sizes, length_app, !length_replicate.
  assert (length ary `mod` Z.to_nat n < Z.to_nat n)%nat; [|lia].
  apply Nat.mod_upper_bound. lia.
Qed.

Lemma array_split_total ary n : 0 < n → ∃ sections, array_split ary n = inr sections.
Proof. intros Hn. unfold array_split. rewrite decide_False by lia. eauto. Qed.

Lemma array_split_error ary n e :
  array_split ary n = inl e → e = ValueError "number sections must be larger than 0.".
Proof. unfold array_split. case_decide; [by intros [= <-] | done]. Qed.

Lemma elem_of_enumerate (xs : list A) i x : (i, x) ∈ enumerate xs ↔ xs !! i = Some x.
Proof.
  unfold enumerate. rewrite elem_of_lookup_imap. split.
  - by intros (j & y & [= -> ->] & ?).
  - intros ?. by exists i, x.
Qed.
End banding.

Lemma elem_of_list_insert_inv {A : Type} (l : list A) (i : nat) (x y : A) :
  y ∈ <[i:=x]> l → y = x ∨ y ∈ l.
Proof.
  revert i. induction l as [|z l IH]; intros [|i]; simpl; try (by right).
  - intros [->|?]%elem_of_cons; [by left | right; apply elem_of_cons; by right].
  - intros [->|Hy]%elem_of_cons; [right; apply elem_of_cons; by left|].
    destruct (IH _ Hy); [by left | right; apply elem_of_cons; by right].
Qed.

Section bucket_index.
Import PySetFacts DictFacts.
Variable py_hash : list Z → Z.
Implicit Types (c : Cache) (b : bucket_map) (bs : list bucket_map)
  (bands : list (nat * list Z)) (x doc_id : option DocId) (k : pykey).

Lemma bins_le_refl bs : bins_le bs bs.
Proof. split; [done|]. intros i b k ids ? ?. by exists b, ids. Qed.

Lemma bins_le_trans bs1 bs2 bs3 : bins_le bs1 bs2 → bins_le bs2 bs3 → bins_le bs1 bs3.
Proof.
  intros [Hl1 H1] [Hl2 H2]. split; [congruence|]. intros i b k ids Hb Hk.
  destruct (H1 _ _ _ _ Hb Hk) as (b2 & ids2 & Hb2 & Hk2 & Hsub2).
  destruct (H2 _ _ _ _ Hb2 Hk2) as (b3 & ids3 & Hb3 & Hk3 & Hsub3).
  exists b3, ids3. split_and!; [done..|]. by etrans.
Qed.

Lemma bins_le_insert bs i b b' :
  bs !! i = Some b →
  (∀ k ids, Dict.get b k = Some ids → ∃ ids', Dict.get b' k = Some ids' ∧ ids ⊆ ids') →
  bins_le bs (<[i:=b']> bs).
Proof.
  intros Hi Hb. split; [by rewrite length_insert|]. intros j bj k ids Hj Hk.
  destruct (decide (i = j)) as [<-|Hne].
  - assert (bj = b) as -> by congruence.
    destruct (Hb _ _ Hk) as (ids' & ? & ?). exists b', ids'.
    split; [|done]. apply list_lookup_insert_eq. by eapply lookup_lt_Some.
  - exists bj, ids. by rewrite list_lookup_insert_ne.
Qed.

Lemma bucket_add_get_eq b k x :
  Dict.get (bucket_add b k x) k = Some (PySet.add x (default [] (Dict.get b k))).
Proof. apply get_set_eq. Qed.

Lemma bucket_add_le b k x k' ids :
  Dict.get b k' = Some ids →
  ∃ ids', Dict.get (bucket_add b k x) k' = Some ids' ∧ ids ⊆ ids'.
Proof.
  intros Hk'. destruct (decide (k = k')) as [<-|Hne].
  - rewrite bucket_add_get_eq, Hk'. eexists. split; [done|].
    intros y Hy. apply elem_of_add. by right.
  - unfold bucket_add. rewrite get_set_ne by done. by exists ids.
Qed.

Lemma bucket_add_present b k x ids :
  Dict.get b k = Some ids → x ∈ ids → bucket_add b k x = b.
Proof.
  intros Hk Hx. unfold bucket_add. rewrite Hk. simpl.
  rewrite add_present by done. by apply set_get_id.
Qed.

Lemma bucket_add_members b k x k' ids' y :
  (k', ids') ∈ bucket_add b k x → y ∈ ids' →
  y = x ∨ ∃ ids, (k', ids) ∈ b ∧ y ∈ ids.
Proof.
  intros [[-> ->]|Hin]%elem_of_set Hy.
  - apply elem_of_add in Hy as [?|Hy]; [by left|]. right.
    destruct (Dict.get b k) as [ids|] eqn:Hk; simpl in Hy.
    + exists ids. split; [by apply get_Some_elem_of | done].
    + by apply elem_of_nil in Hy.
  - right. by exists ids'.
Qed.

Lemma bucket_add_NoDup b k x k' ids' :
  (∀ k0 ids, (k0, ids) ∈ b → NoDup ids) →
  (k', ids') ∈ bucket_add b k x → NoDup ids'.
Proof.
  intros Hb [[-> ->]|Hin]%elem_of_set; [|by eapply Hb].
  apply NoDup_add. destruct (Dict.get b k) as [ids|] eqn:Hk; simpl.
  - eapply Hb. by apply get_Some_elem_of.
  - apply NoDup_nil_2.
Qed.

(** *** The loop of [update] *)

Lemma insert_bands_length doc_id bands bs :
  length (insert_bands py_hash doc_id bands bs).1 = length bs.
Proof.
  revert bs. induction bands as [|[i band] bands IH]; intros bs; simpl; [done|].
  destruct (bs !! i) as [b|]; [|done]. by rewrite IH, length_insert.
Qed.

Lemma insert_bands_ok doc_id bands bs :
  in_range bands bs → (insert_bands py_hash doc_id bands bs).2 = None.
Proof.
  revert bs. induction bands as [|[i band] bands IH]; intros bs Hr; simpl; [done|].
  destruct (bs !! i) as [b|] eqn:Hi.
  - apply IH. intros j bd Hj. rewrite length_insert. eapply Hr, elem_of_cons. by right.
  - apply lookup_ge_None in Hi.
    assert (i < length bs)%nat; [|lia]. eapply Hr, elem_of_cons. by left.
Qed.

Lemma insert_bands_error doc_id bands bs e :
  (insert_bands py_hash doc_id bands bs).2 = Some e → e = IndexError.
Proof.
  revert bs. induction bands as [|[i band] bands IH]; intros bs; simpl; [done|].
  destruct (bs !! i) as [b|]; [apply IH | by intros [= <-]].
Qed.

Lemma insert_bands_le doc_id bands bs :
  bins_le bs (insert_bands py_hash doc_id bands bs).1.
Proof.
  revert bs. induction bands as [|[i band] bands IH]; intros bs; simpl.
  - apply bins_le_refl.
  - destruct (bs !! i) as [b|] eqn:Hi; [|apply bins_le_refl].
    eapply bins_le_trans; [|apply IH].
    eapply bins_le_insert; [done|]. intros k ids. apply bucket_add_le.
Qed.

Lemma lands_le bs bs' bands x : bins_le bs bs' → lands py_hash bs bands x → lands py_hash bs' bands x.
Proof.
  intros [_ Hle] Hl i band Hin. destruct (Hl _ _ Hin) as (b & ids & Hb & Hk & Hx).
  destruct (Hle _ _ _ _ Hb Hk) as (b' & ids' & ? & ? & Hsub).
  exists b', ids'. split_and!; [done..|]. by apply Hsub.
Qed.

Lemma insert_bands_lands doc_id bands bs :
  in_range bands bs → lands py_hash (insert_bands py_hash doc_id bands bs).1 bands doc_id.
Proof.
  revert bs. induction bands as [|[i band] bands IH]; intros bs Hr; simpl.
  - intros j bd []%elem_of_nil.
  - destruct (bs !! i) as [b|] eqn:Hi.
    2:{ apply lookup_ge_None in Hi.
        assert (i < length bs)%nat; [|lia]. eapply Hr, elem_of_cons. by left. }
    set (bs1 := <[i:=bucket_add b (KInt (py_hash band)) doc_id]> bs).
    assert (in_range bands bs1) as Hr1.
    { intros j bd Hj. unfold bs1. rewrite length_insert. eapply Hr, elem_of_cons. by right. }
    intros j bd [[= -> ->]|Hj]%elem_of_cons; [|by apply IH].
    assert (lands py_hash bs1 [(i, band)] doc_id) as Hl1.
    { intros j bd [= -> ->]%list_elem_of_singleton.
      exists (bucket_add b (KInt (py_hash band)) doc_id). eexists. split_and!.
      - unfold bs1. apply list_lookup_insert_eq. by eapply lookup_lt_Some.
      - apply bucket_add_get_eq.
      - apply elem_of_add. by left. }
    apply (lands_le bs1 _ _ _ (insert_bands_le doc_id bands bs1) Hl1).
    apply elem_of_cons. by left.
Qed.

Lemma insert_bands_fixed doc_id bands bs :
  lands py_hash bs bands doc_id → insert_bands py_hash doc_id bands bs = (bs, None).
Proof.
  induction bands as [|[i band] bands IH]; intros Hl; simpl; [done|].
  destruct (Hl i band) as (b & ids & Hb & Hk & Hx); [apply elem_of_cons; by left|].
  rewrite Hb. rewrite (bucket_add_present _ _ _ _ Hk Hx), list_insert_id by done.
  apply IH. intros j bd Hj. apply Hl, elem_of_cons. by right.
Qed.

Lemma insert_bands_all_ids (P : option DocId → Prop) doc_id bands bs :
  P doc_id → all_ids P bs → all_ids P (insert_bands py_hash doc_id bands bs).1.
Proof.
  intros HP. revert bs. induction bands as [|[i band] bands IH]; intros bs Hbs; simpl; [done|].
  destruct (bs !! i) as [b|] eqn:Hi; [|done]. apply IH.
  intros bin k ids y [->|Hbin]%elem_of_list_insert_inv Hk Hy; [|by eapply Hbs].
  destruct (bucket_add_members _ _ _ _ _ _ Hk Hy) as [->|(ids0 & Hk0 & Hy0)]; [done|].
  eapply Hbs; [|done..]. by eapply list_elem_of_lookup_2.
Qed.

Lemma insert_bands_sets_NoDup doc_id bands bs :
  sets_NoDup bs → sets_NoDup (insert_bands py_hash doc_id bands bs).1.
Proof.
  revert bs. induction bands as [|[i band] bands IH]; intros bs Hbs; simpl; [done|].
  destruct (bs !! i) as [b|] eqn:Hi; [|done]. apply IH.
  intros bin k ids [->|Hbin]%elem_of_list_insert_inv Hk; [|by eapply Hbs].
  eapply bucket_add_NoDup; [|done]. intros k0 ids0. apply Hbs.
  by eapply list_elem_of_lookup_2.
Qed.
End bucket_index.

Section queries.
Import PySetFacts DictFacts.
Variable py_hash : list Z → Z.
Implicit Types (c : Cache) (b : bucket_map) (bs : list bucket_map)
  (bands : list (nat * list Z)) (x doc_id : option DocId) (k : pykey).

Lemma bins__in_range c fp bands :
  shape_ok c → bins_ c fp = inr bands → in_range bands (bins c).
Proof.
  unfold bins_, shape_ok. intros Hlen.
  destruct (array_split fp (num_bands c)) as [|sections] eqn:Hs; [done|].
  intros [= <-] i band Hin%elem_of_enumerate%lookup_lt_Some.
  apply array_split_Some in Hs as [_ Hs]. lia.
Qed.

Lemma bins__total c fp : 0 < num_bands c → ∃ bands, bins_ c fp = inr bands.
Proof.
  intros Hnb. unfold bins_.
  destruct (array_split_total fp (num_bands c) Hnb) as [sections ->]. eauto.
Qed.

Lemma bins__error c fp e :
  bins_ c fp = inl e → e = ValueError "number sections must be larger than 0.".
Proof.
  unfold bins_. destruct (array_split fp (num_bands c)) eqn:Hs; [|done].
  intros [= <-]. by eapply array_split_error.
Qed.

(** *** Reading a bucket of a [defaultdict] *)

Lemma bucket_read_le b k :
  ∀ k' ids, Dict.get b k' = Some ids →
    ∃ ids', Dict.get (bucket_read b k).1 k' = Some ids' ∧ ids ⊆ ids'.
Proof.
  intros k' ids Hk'. unfold bucket_read.
  destruct (Dict.get b k) as [ids0|] eqn:Hk; simpl; [by exists ids|].
  rewrite get_set_ne by congruence. by exists ids.
Qed.

Lemma bucket_read_items b k k' ids' :
  (k', ids') ∈ (bucket_read b k).1 → ids' = [] ∨ (k', ids') ∈ b.
Proof.
  unfold bucket_read. destruct (Dict.get b k) as [ids0|] eqn:Hk; simpl; [by right|].
  intros [[_ ->]|?]%elem_of_set; [by left | by right].
Qed.

Lemma bucket_read_result b k y :
  y ∈ (bucket_read b k).2 → ∃ ids, (k, ids) ∈ b ∧ y ∈ ids.
Proof.
  unfold bucket_read. destruct (Dict.get b k) as [ids0|] eqn:Hk; simpl.
  - intros Hy. exists ids0. split; [by apply get_Some_elem_of | done].
  - by intros ?%elem_of_nil.
Qed.

Lemma bucket_read_present b k ids : Dict.get b k = Some ids → bucket_read b k = (b, ids).
Proof. intros Hk. unfold bucket_read. by rewrite Hk. Qed.

(** *** The loop of [get_duplicates_of] *)

Lemma collect_candidates_length bands bs acc :
  length (collect_candidates py_hash bands bs acc).1 = length bs.
Proof.
  revert bs acc. induction bands as [|[i band] bands IH]; intros bs acc; simpl; [done|].
  destruct (bs !! i) as [b|]; [|done].
  destruct (bucket_read b (KInt (py_hash band))) as [b' ids].
  by rewrite IH, length_insert.
Qed.

Lemma collect_candidates_ok bands bs acc :
  in_range bands bs → ∃ R, (collect_candidates py_hash bands bs acc).2 = inr R.
Proof.
  revert bs acc. induction bands as [|[i band] bands IH]; intros bs acc Hr; simpl; [eauto|].
  destruct (bs !! i) as [b|] eqn:Hi.
  - destruct (bucket_read b (KInt (py_hash band))) as [b' ids].
    apply IH. intros j bd Hj. rewrite length_insert. eapply Hr, elem_of_cons. by right.
  - apply lookup_ge_None in Hi.
    assert (i < length bs)%nat; [|lia]. eapply Hr, elem_of_cons. by left.
Qed.

Lemma collect_candidates_error bands bs acc e :
  (collect_candidates py_hash bands bs acc).2 = inl e → e = IndexError.
Proof.
  revert bs acc. induction bands as [|[i band] bands IH]; intros bs acc; simpl; [done|].
  destruct (bs !! i) as [b|]; [|by intros [= <-]].
  destruct (bucket_read b (KInt (py_hash band))) as [b' ids]. apply IH.
Qed.

Lemma collect_candidates_le bands bs acc :
  bins_le bs (collect_candidates py_hash bands bs acc).1.
Proof.
  revert bs acc. induction bands as [|[i band] bands IH]; intros bs acc; simpl.
  - apply bins_le_refl.
  - destruct (bs !! i) as [b|] eqn:Hi; [|apply bins_le_refl].
    destruct (bucket_read b (KInt (py_hash band))) as [b' ids] eqn:Hread.
    eapply bins_le_trans; [|apply IH]. eapply bins_le_insert; [done|].
    intros k ids0 Hk. pose proof (bucket_read_le b (KInt (py_hash band)) k ids0 Hk) as Hle.
    by rewrite Hread in Hle.
Qed.

Lemma collect_candidates_all_ids (P : option DocId → Prop) bands bs acc :
  all_ids P bs → (∀ x, x ∈ acc → P x) →
  all_ids P (collect_candidates py_hash bands bs acc).1
  ∧ ∀ R, (collect_candidates py_hash bands bs acc).2 = inr R → ∀ x, x ∈ R → P x.
Proof.
  revert bs acc. induction bands as [|[i band] bands IH]; intros bs acc Hbs Hacc; simpl.
  - split; [done|]. by intros R [= <-].
  - destruct (bs !! i) as [b|] eqn:Hi; [|done].
    destruct (bucket_read b (KInt (py_hash band))) as [b' ids] eqn:Hread.
    assert (b ∈ bs) as Hb by by eapply list_elem_of_lookup_2.
    apply IH.
    + intros bin k ids0 y [->|Hbin]%elem_of_list_insert_inv Hk Hy; [|by eapply Hbs].
      pose proof (bucket_read_items b (KInt (py_hash band)) k ids0) as Hit.
      rewrite Hread in Hit. destruct (Hit Hk) as [->|Hk0].
      * by apply elem_of_nil in Hy.
      * by eapply Hbs.
    + intros y [?|Hy]%elem_of_update; [by apply Hacc|].
      pose proof (bucket_read_result b (KInt (py_hash band)) y) as Hres.
      rewrite Hread in Hres. destruct (Hres Hy) as (ids0 & ? & ?). by eapply Hbs.
Qed.

Lemma collect_candidates_sets_NoDup bands bs acc :
  sets_NoDup bs → sets_NoDup (collect_candidates py_hash bands bs acc).1.
Proof.
  revert bs acc. induction bands as [|[i band] bands IH]; intros bs acc Hbs; simpl; [done|].
  destruct (bs !! i) as [b|] eqn:Hi; [|done].
  destruct (bucket_read b (KInt (py_hash band))) as [b' ids] eqn:Hread.
  apply IH. intros bin k ids0 [->|Hbin]%elem_of_list_insert_inv Hk; [|by eapply Hbs].
  pose proof (bucket_read_items b (KInt (py_hash band)) k ids0) as Hit.
  rewrite Hread in Hit. destruct (Hit Hk) as [->|Hk0]; [apply NoDup_nil_2|].
  eapply Hbs; [|done]. by eapply list_elem_of_lookup_2.
Qed.

Lemma collect_candidates_NoDup bands bs acc R :
  NoDup acc → (collect_candidates py_hash bands bs acc).2 = inr R → NoDup R.
Proof.
  revert bs acc. induction bands as [|[i band] bands IH]; intros bs acc Hacc; simpl.
  - by intros [= <-].
  - destruct (bs !! i) as [b|] eqn:Hi; [|done].
    destruct (bucket_read b (KInt (py_hash band))) as [b' ids] eqn:Hread.
    apply IH. by apply NoDup_update.
Qed.

(** The candidates contain every member of every bucket a band falls in. *)
Lemma collect_candidates_complete bands bs acc R :
  (collect_candidates py_hash bands bs acc).2 = inr R →
  acc ⊆ R
  ∧ ∀ i band b ids, (i, band) ∈ bands → bs !! i = Some b →
      Dict.get b (KInt (py_hash band)) = Some ids → ids ⊆ R.
Proof.
  revert bs acc. induction bands as [|[i band] bands IH]; intros bs acc; simpl.
  - intros [= <-]. split; [done|]. by intros i band b ids ?%elem_of_nil.
  - destruct (bs !! i) as [b|] eqn:Hi; [|done].
    destruct (bucket_read b (KInt (py_hash band))) as [b' ids0] eqn:Hread.
    intros HR. destruct (IH _ _ HR) as [Hacc Hrest]. split.
    + intros y Hy. apply Hacc, elem_of_update. by left.
    + intros j bd bj ids [[= -> ->]|Hj]%elem_of_cons Hbj Hk.
      * assert (bj = b) as -> by congruence.
        rewrite (bucket_read_present _ _ _ Hk) in Hread. injection Hread as <- <-.
        intros y Hy. apply Hacc, elem_of_update. by right.
      * assert (bins_le bs (<[i:=b']> bs)) as [_ Hle].
        { eapply bins_le_insert; [done|]. intros k1 ids1 Hk1.
          pose proof (bucket_read_le b (KInt (py_hash band)) k1 ids1 Hk1) as Hle.
          by rewrite Hread in Hle. }
        destruct (Hle _ _ _ _ Hbj Hk) as (bj' & ids' & Hbj' & Hk' & Hsub).
        etrans; [done|]. by eapply Hrest.
Qed.

(** *** The set comprehension of [get_duplicates_of] *)

Lemma filter_ids_total c fp candidates t res :
  (∀ x, x ∈ candidates → is_Some (Dict.get (fingerprints c) x)) →
  ∃ R, filter_ids c fp candidates t res = inr R.
Proof.
  revert res. induction candidates as [|x candidates IH]; intros res Hin; simpl; [eauto|].
  destruct (Hin x) as [fpx ->]; [apply elem_of_cons; by left|].
  apply IH. intros y Hy. apply Hin, elem_of_cons. by right.
Qed.

Lemma filter_ids_error c fp candidates t res e :
  filter_ids c fp candidates t res = inl e → e = KeyError.
Proof.
  revert res. induction candidates as [|x candidates IH]; intros res; simpl; [done|].
  destruct (Dict.get (fingerprints c) x); [apply IH | by intros [= <-]].
Qed.
End queries.

(** ** Registration *)

Section registration.
Import PySetFacts DictFacts.
Variable py_hash : list Z → Z.
Implicit Types (c : Cache) (doc : string) (doc_id : option DocId).

Lemma update_fingerprints c doc doc_id :
  fingerprints (state (update py_hash c doc doc_id))
  = Dict.set (fingerprints c) doc_id (fingerprint (hasher c) (encode_utf8 doc)).
Proof.
  unfold update. destruct (bins_ _ _); [done|]. by destruct (insert_bands _ _ _ _).
Qed.

Lemma update_num_bands c doc doc_id :
  num_bands (state (update py_hash c doc doc_id)) = num_bands c.
Proof.
  unfold update. destruct (bins_ _ _); [done|]. by destruct (insert_bands _ _ _ _).
Qed.

Lemma update_hasher c doc doc_id :
  hasher (state (update py_hash c doc doc_id)) = hasher c.
Proof.
  unfold update. destruct (bins_ _ _); [done|]. by destruct (insert_bands _ _ _ _).
Qed.

Lemma update_bins c doc doc_id :
  bins (state (update py_hash c doc doc_id))
  = match bins_ c (fingerprint (hasher c) (encode_utf8 doc)) with
    | inl _ => bins c
    | inr bands => (insert_bands py_hash doc_id bands (bins c)).1
    end.
Proof.
  unfold update. change (bins_ (with_fingerprints c _) ?fp) with (bins_ c fp).
  destruct (bins_ _ _); [done|]. simpl. by destruct (insert_bands _ _ _ _).
Qed.

Lemma update_result c doc doc_id :
  result (update py_hash c doc doc_id)
  = match bins_ c (fingerprint (hasher c) (encode_utf8 doc)) with
    | inl e => inl e
    | inr bands =>
        match (insert_bands py_hash doc_id bands (bins c)).2 with
        | Some e => inl e
        | None => inr ()
        end
    end.
Proof.
  unfold update. change (bins_ (with_fingerprints c _) ?fp) with (bins_ c fp).
  destruct (bins_ _ _); [done|]. simpl. by destruct (insert_bands _ _ _ _).
Qed.

Lemma update_logged c doc doc_id :
  logged (update py_hash c doc doc_id)
  = match doc_id with
    | Some i => if known c doc_id then [Warning_DuplicateId i] else []
    | None => []
    end.
Proof.
  unfold update. destruct (bins_ _ _); [done|]. by destruct (insert_bands _ _ _ _).
Qed.

Lemma update_shape_ok c doc doc_id :
  shape_ok c → shape_ok (state (update py_hash c doc doc_id)).
Proof.
  unfold shape_ok. rewrite update_num_bands, update_bins. intros Hlen.
  destruct (bins_ _ _); [done|]. by rewrite insert_bands_length.
Qed.

Lemma update_bins_le c doc doc_id :
  bins_le (bins c) (bins (state (update py_hash c doc doc_id))).
Proof.
  rewrite update_bins. destruct (bins_ _ _); [apply bins_le_refl | apply insert_bands_le].
Qed.

Lemma update_well_formed c doc doc_id :
  well_formed c → well_formed (state (update py_hash c doc doc_id)).
Proof.
  intros [Hnb Hlen Hsets]. split.
  - by rewrite update_num_bands.
  - by apply update_shape_ok.
  - rewrite update_bins. destruct (bins_ _ _); [done|]. by apply insert_bands_sets_NoDup.
Qed.

Lemma update_succeeds c doc doc_id :
  well_formed c → result (update py_hash c doc doc_id) = inr ().
Proof.
  intros [Hnb Hlen Hsets]. rewrite update_result.
  destruct (bins__total c (fingerprint (hasher c) (encode_utf8 doc)) Hnb) as [bands Hb].
  rewrite Hb, insert_bands_ok; [done|]. by eapply bins__in_range.
Qed.

Lemma update_lands c doc doc_id bands :
  shape_ok c → bins_ c (fingerprint (hasher c) (encode_utf8 doc)) = inr bands →
  lands py_hash (bins (state (update py_hash c doc doc_id))) bands doc_id.
Proof.
  intros Hlen Hb. rewrite update_bins, Hb. apply insert_bands_lands.
  by eapply bins__in_range.
Qed.

Lemma update_ids_in_store c doc doc_id :
  ids_in_store c → ids_in_store (state (update py_hash c doc doc_id)).
Proof.
  unfold ids_in_store. intros Hinv. rewrite update_fingerprints, update_bins.
  set (fp := fingerprint (hasher c) (encode_utf8 doc)).
  assert (∀ x, is_Some (Dict.get (fingerprints c) x) →
               is_Some (Dict.get (Dict.set (fingerprints c) doc_id fp) x)) as Hmono.
  { intros x Hx. destruct (decide (doc_id = x)) as [->|Hne].
    - by rewrite get_set_eq.
    - by rewrite get_set_ne. }
  assert (all_ids (λ x, is_Some (Dict.get (Dict.set (fingerprints c) doc_id fp) x))
                  (bins c)) as Hold.
  { intros bin k ids x ? ? ?. apply Hmono. by eapply Hinv. }
  destruct (bins_ c fp) as [|bands]; [exact Hold|].
  apply insert_bands_all_ids; [|exact Hold]. by rewrite get_set_eq.
Qed.

Lemma NoDup_count_1 {A : Type} `{EqDecision A} (x : A) (l : list A) :
  NoDup l → x ∈ l → length (filter (λ y, y = x) l) = 1%nat.
Proof.
  induction l as [|z l IH]; [by intros _ ?%elem_of_nil|].
  intros [Hz Hnd]%NoDup_cons Hin. rewrite filter_cons. case_decide as Hzx.
  - subst z. simpl. by rewrite filter_eq_absent.
  - apply IH; [done|]. apply elem_of_cons in Hin as [->|]; done.
Qed.

(** C9 (amended): on a usable index, registering the same content under
    the same [doc_id] argument a second time succeeds and leaves every bucket
    mapping (and the fingerprint store) exactly as the first call left it,
    with the id exactly once in each bucket its bands fall in.  When the doc
    id is set, the second call emits the duplicate-id warning record, whose
    line is ["Duplicate id <id>"] for an integer id and cannot be formatted
    by [%d] for a string id; when the doc id is [None], the second call logs
    nothing. *)
Theorem update_twice (c : Cache) (doc : string) (doc_id : option DocId) :
  well_formed c →
  let o1 := update py_hash c doc doc_id in
  let o2 := update py_hash (state o1) doc doc_id in
  result o1 = inr () ∧ result o2 = inr ()
  ∧ bins (state o2) = bins (state o1)
  ∧ fingerprints (state o2) = fingerprints (state o1)
  ∧ logged o2 = match doc_id with
                | Some i => [Warning_DuplicateId i]
                | None => []
                end
  ∧ (∀ z, doc_id = Some (IdInt z) →
       LogRecord_message <$> logged o2 = [Some ("Duplicate id " +:+ pretty z)])
  ∧ (∀ s, doc_id = Some (IdStr s) → LogRecord_message <$> logged o2 = [None])
  ∧ ∃ bands, bins_ c (fingerprint (hasher c) (encode_utf8 doc)) = inr bands
      ∧ ∀ bin_i band, (bin_i, band) ∈ bands →
          ∃ b ids, bins (state o2) !! bin_i = Some b
                   ∧ Dict.get b (KInt (py_hash band)) = Some ids
                   ∧ length (filter (λ y, y = doc_id) ids) = 1%nat.
Proof.
  intros Hwf o1 o2. pose proof (update_well_formed c doc doc_id Hwf) as Hwf1.
  fold o1 in Hwf1. set (fp := fingerprint (hasher c) (encode_utf8 doc)).
  destruct (bins__total c fp (wf_num_bands c Hwf)) as [bands Hb].
  assert (lands py_hash (bins (state o1)) bands doc_id) as Hl.
  { apply update_lands; [apply Hwf | done]. }
  assert (bins_ (state o1) (fingerprint (hasher (state o1)) (encode_utf8 doc))
          = inr bands) as Hb1.
  { unfold o1. rewrite update_hasher. unfold bins_ in *. by rewrite update_num_bands. }
  assert (bins (state o2) = bins (state o1)) as Hbins.
  { unfold o2. rewrite update_bins, Hb1. by rewrite insert_bands_fixed. }
  assert (logged o2 = match doc_id with
                      | Some i => [Warning_DuplicateId i]
                      | None => []
                      end) as Hlog.
  { unfold o2. rewrite update_logged. destruct doc_id as [i|]; [|done].
    unfold known, o1. rewrite update_fingerprints. unfold Dict.contains.
    by rewrite get_set_eq, bool_decide_eq_true_2. }
  split_and!.
  - by apply update_succeeds.
  - by apply update_succeeds.
  - done.
  - unfold o2. rewrite update_fingerprints. apply set_get_id.
    unfold o1. rewrite update_hasher, update_fingerprints. apply get_set_eq.
  - done.
  - intros z ->. by rewrite Hlog.
  - intros s ->. by rewrite Hlog.
  - exists bands. split; [done|]. intros bin_i band Hin. rewrite Hbins.
    destruct (Hl _ _ Hin) as (b & ids & Hbi & Hk & Hx). exists b, ids.
    split_and!; [done..|]. apply NoDup_count_1; [|done].
    eapply (wf_sets _ Hwf1); [by eapply list_elem_of_lookup_2|].
    by apply get_Some_elem_of.
Qed.
End registration.

(** C9, counterexample: [update("ab", None)] twice on
    [Cache(hasher2, num_bands=2)].  Both calls succeed and the second leaves
    the buckets unchanged, but it logs nothing: the warning is guarded by
    [doc_id is not None]. *)
Lemma unset_id_second_update_silent :
  let o1 := update Example.hash31 (Example.new_cache 2) "ab" None in
  let o2 := update Example.hash31 (state o1) "ab" None in
  result o1 = inr () ∧ result o2 = inr ()
  ∧ bins (state o2) = bins (state o1)
  ∧ logged o2 = []
  ∧ ¬ repeated_update_warns Example.hash31 (Example.new_cache 2) "ab" None.
Proof.
  assert (logged (update Example.hash31
                    (state (update Example.hash31 (Example.new_cache 2) "ab" None))
                    "ab" None) = []) as Hlog by reflexivity.
  cbv zeta. split_and!; [reflexivity | reflexivity | vm_compute; reflexivity | exact Hlog |].
  intros [_ [i Hi]]. cbv zeta in Hi. rewrite Hlog in Hi. by apply elem_of_nil in Hi.
Qed.


(** ** Clearing *)

(** C7: after [clear()], [get_all_duplicates()] returns the empty set, every
    bucket mapping is empty, and the fingerprint store is the one before the
    call: every doc id still maps to its fingerprint. *)
Theorem clear_spec (c : Cache) :
  get_all_duplicates (clear c) None
  = {| state := clear c; logged := []; result := inr [] |}
  ∧ (∀ b, b ∈ bins (clear c) → b = [])
  ∧ length (bins (clear c)) = Z.to_nat (num_bands c)
  ∧ fingerprints (clear c) = fingerprints c
  ∧ ∀ doc_id, Dict.get (fingerprints (clear c)) doc_id = Dict.get (fingerprints c) doc_id.
Proof.
  assert (∀ b : bucket_map, b ∈ bins (clear c) → b = []) as Hempty.
  { intros b Hb. simpl in Hb. by apply elem_of_replicate_inv in Hb. }
  split_and!; [|done|apply length_replicate|done..].
  unfold get_all_duplicates. do 2 f_equal.
  destruct (all_candidate_pairs (bins (clear c))) as [|p ps] eqn:Hps; [done|].
  assert (p ∈ all_candidate_pairs (bins (clear c))) as Hp.
  { rewrite Hps. apply elem_of_cons. by left. }
  apply elem_of_all_candidate_pairs in Hp as (bin & k & ids & Hbin & Hget & _).
  apply Hempty in Hbin as ->. done.
Qed.

(** ** Duplicate queries *)

Lemma known_spec (c : Cache) (doc_id : option DocId) :
  known c doc_id = true
  ↔ ∃ i, doc_id = Some i ∧ is_Some (Dict.get (fingerprints c) doc_id).
Proof.
  unfold known. destruct doc_id as [i|].
  - rewrite DictFacts.contains_get. split; [eauto | by intros (? & _ & ?)].
  - split; [done | by intros (? & ? & _)].
Qed.

Lemma known_false (c : Cache) (doc_id : option DocId) :
  known c doc_id = false
  ↔ doc_id = None ∨ Dict.get (fingerprints c) doc_id = None.
Proof.
  rewrite <- not_true_iff_false, known_spec. split.
  - intros Hn. destruct doc_id as [i|]; [|by left]. right.
    destruct (Dict.get (fingerprints c) (Some i)) eqn:Hg; [|done].
    destruct Hn. exists i. split; [done | eauto].
  - intros [->| ->] (i & ? & Hs); [done | by destruct Hs].
Qed.

Section duplicate_queries.
Import PySetFacts DictFacts.
Variable py_hash : list Z → Z.
Implicit Types (c : Cache) (doc : option string) (doc_id : option DocId)
  (min_jaccard : option Q).

Lemma duplicates_by_fingerprint_state c fp min_jaccard :
  state (duplicates_by_fingerprint py_hash c fp min_jaccard)
  = match bins_ c fp with
    | inl _ => c
    | inr bands => with_bins c (collect_candidates py_hash bands (bins c) []).1
    end.
Proof.
  unfold duplicates_by_fingerprint. destruct (bins_ c fp); [done|].
  by destruct (collect_candidates _ _ _ _).
Qed.

Lemma duplicates_by_fingerprint_result c fp :
  result (duplicates_by_fingerprint py_hash c fp None)
  = match bins_ c fp with
    | inl e => inl e
    | inr bands => (collect_candidates py_hash bands (bins c) []).2
    end.
Proof.
  unfold duplicates_by_fingerprint. destruct (bins_ c fp); [done|].
  by destruct (collect_candidates _ _ _ _) as [bs [e|R]].
Qed.

Lemma duplicates_by_fingerprint_error c fp min_jaccard e :
  result (duplicates_by_fingerprint py_hash c fp min_jaccard) = inl e →
  e = ValueError "number sections must be larger than 0." ∨ e = IndexError
  ∨ (e = KeyError ∧ is_Some min_jaccard).
Proof.
  unfold duplicates_by_fingerprint. destruct (bins_ c fp) as [e'|bands] eqn:Hb.
  - intros [= <-]. left. by eapply bins__error.
  - destruct (collect_candidates _ _ _ _) as [bs [e'|R]] eqn:Hc; simpl.
    + intros [= <-]. right. left. eapply (collect_candidates_error py_hash bands (bins c) []).
      by rewrite Hc.
    + destruct min_jaccard as [t|]; [|done].
      intros He%filter_ids_error. right. right. by split.
Qed.

(** The state a query leaves: the one it found, or that one with some empty
    buckets added by the reads of the [defaultdict]s. *)
Lemma get_duplicates_of_state c doc doc_id min_jaccard :
  state (get_duplicates_of py_hash c doc doc_id min_jaccard) = c
  ∨ ∃ bands, state (get_duplicates_of py_hash c doc doc_id min_jaccard)
             = with_bins c (collect_candidates py_hash bands (bins c) []).1.
Proof.
  unfold get_duplicates_of. destruct (resolve_fingerprint c doc doc_id) as [e|fp]; [by left|].
  rewrite duplicates_by_fingerprint_state. destruct (bins_ c fp); [by left | right; eauto].
Qed.

Lemma is_duplicate_state c doc doc_id :
  state (is_duplicate py_hash c doc doc_id) = c
  ∨ state (is_duplicate py_hash c doc doc_id)
    = state (get_duplicates_of py_hash c doc None None).
Proof. unfold is_duplicate. destruct (known c doc_id); [by left | by right]. Qed.

Lemma resolve_fingerprint_content c d doc_id :
  known c doc_id = false →
  resolve_fingerprint c (Some d) doc_id = inr (fingerprint (hasher c) (encode_utf8 d)).
Proof. intros Hk. unfold resolve_fingerprint. by rewrite Hk. Qed.

Lemma resolve_fingerprint_stored c doc i fp :
  Dict.get (fingerprints c) (Some i) = Some fp →
  resolve_fingerprint c doc (Some i) = inr fp.
Proof.
  intros Hg. unfold resolve_fingerprint, known, Dict.contains.
  rewrite bool_decide_eq_true_2 by (by rewrite Hg). by rewrite Hg.
Qed.

Lemma resolve_fingerprint_error c doc doc_id e :
  resolve_fingerprint c doc doc_id = inl e →
  e = ValueError must_provide_msg ∧ doc = None ∧ known c doc_id = false.
Proof.
  unfold resolve_fingerprint. destruct (known c doc_id) eqn:Hk.
  - apply known_spec in Hk as (i & -> & [fp ->]). done.
  - destruct doc; [done|]. by intros [= <-].
Qed.

(** On a usable index a query by content, without threshold, returns. *)
Lemma duplicates_by_fingerprint_total c fp :
  well_formed c → ∃ dups, result (duplicates_by_fingerprint py_hash c fp None) = inr dups.
Proof.
  intros [Hnb Hlen _]. rewrite duplicates_by_fingerprint_result.
  destruct (bins__total c fp Hnb) as [bands Hb]. rewrite Hb.
  apply collect_candidates_ok. by eapply bins__in_range.
Qed.

(** C8: [get_duplicates_of] raises its [ValueError] ("Must provide a
    document or a know document id") exactly when no content is supplied and
    the doc id is unset or absent from the store; a doc id present in the
    store is looked up with its stored fingerprint, and otherwise supplied
    content is fingerprinted afresh. *)
Theorem get_duplicates_of_resolution c doc doc_id min_jaccard :
  (result (get_duplicates_of py_hash c doc doc_id min_jaccard)
     = inl (ValueError must_provide_msg)
   ↔ doc = None ∧ (doc_id = None ∨ Dict.get (fingerprints c) doc_id = None))
  ∧ (∀ i fp, doc_id = Some i → Dict.get (fingerprints c) (Some i) = Some fp →
       get_duplicates_of py_hash c doc doc_id min_jaccard
       = duplicates_by_fingerprint py_hash c fp min_jaccard)
  ∧ (∀ d, doc = Some d →
       doc_id = None ∨ Dict.get (fingerprints c) doc_id = None →
       get_duplicates_of py_hash c doc doc_id min_jaccard
       = duplicates_by_fingerprint py_hash c
           (fingerprint (hasher c) (encode_utf8 d)) min_jaccard).
Proof.
  split_and!.
  - rewrite <- known_false. unfold get_duplicates_of.
    destruct (resolve_fingerprint c doc doc_id) as [e|fp] eqn:Hr; simpl.
    + apply resolve_fingerprint_error in Hr as (-> & -> & Hk). done.
    + split.
      * intros [He|[He|[He _]]]%duplicates_by_fingerprint_error; discriminate He.
      * intros [-> Hk]. unfold resolve_fingerprint in Hr. by rewrite Hk in Hr.
  - intros i fp -> Hg. unfold get_duplicates_of.
    by rewrite (resolve_fingerprint_stored _ _ _ _ Hg).
  - intros d -> Hk%known_false. unfold get_duplicates_of.
    by rewrite resolve_fingerprint_content.
Qed.

(** C6: on a usable index, [is_duplicate(doc, doc_id)] returns [False] when
    [doc_id] is set and present in the fingerprint store; otherwise it
    returns whether [get_duplicates_of(doc)], without threshold, holds an id
    other than [doc_id], that is whether that set minus [{doc_id}] is
    non-empty. *)
Theorem is_duplicate_spec c (d : string) doc_id :
  well_formed c →
  ∃ b, result (is_duplicate py_hash c (Some d) doc_id) = inr b
    ∧ ((∃ i, doc_id = Some i ∧ is_Some (Dict.get (fingerprints c) doc_id)) →
         b = false)
    ∧ (doc_id = None ∨ Dict.get (fingerprints c) doc_id = None →
         ∃ dups, result (get_duplicates_of py_hash c (Some d) None None) = inr dups
                 ∧ (b = true ↔ PySet.difference dups [doc_id] ≠ [])
                 ∧ (b = true ↔ ∃ x, x ∈ dups ∧ x ≠ doc_id)).
Proof.
  intros Hwf. unfold is_duplicate. destruct (known c doc_id) eqn:Hk.
  - exists false. split_and!; [done..|].
    intros Hn%known_false. congruence.
  - unfold get_duplicates_of at 3. rewrite resolve_fingerprint_content by done.
    destruct (duplicates_by_fingerprint_total c
                (fingerprint (hasher c) (encode_utf8 d)) Hwf) as [dups Hd].
    rewrite Hd. simpl. eexists. split; [done|]. split.
    + intros Hn%known_spec. congruence.
    + intros _. exists dups. split.
      { unfold get_duplicates_of. by rewrite resolve_fingerprint_content. }
      rewrite bool_decide_eq_true.
      assert ((0 < length (PySet.difference dups [doc_id]))%nat
              ↔ PySet.difference dups [doc_id] ≠ []) as Hlen.
      { destruct (PySet.difference dups [doc_id]); simpl; [split; [lia|done]|].
        split; [done | lia]. }
      split; [done|]. rewrite Hlen. split.
      * destruct (PySet.difference dups [doc_id]) as [|x l] eqn:Hdiff; [done|].
        intros _. exists x.
        assert (x ∈ PySet.difference dups [doc_id]) as Hx.
        { rewrite Hdiff. apply elem_of_cons. by left. }
        apply elem_of_difference in Hx as [? Hne]. split; [done|].
        intros ->. apply Hne, elem_of_cons. by left.
      * intros (x & Hx & Hne) Hnil.
        assert (x ∈ PySet.difference dups [doc_id]) as Hin.
        { apply elem_of_difference. split; [done|].
          by intros ->%list_elem_of_singleton. }
        rewrite Hnil in Hin. by apply elem_of_nil in Hin.
Qed.
End duplicate_queries.

(** ** Reachable states *)

Section reachability.
Import PySetFacts DictFacts.
Variable py_hash : list Z → Z.
Implicit Types (c : Cache) (h : Hasher) (nb : Z).

Lemma Cache_init_inv h nb c :
  Cache_init h nb = inr c →
  nb ≠ 0 ∧ num_bands c = nb ∧ hasher c = h
  ∧ bins c = replicate (Z.to_nat nb) [] ∧ fingerprints c = [].
Proof.
  unfold Cache_init, py_mod, py_floordiv. destruct (decide (nb = 0)); [done|].
  destruct (decide (_ = 0)); [|done]. by intros [= <-].
Qed.

Lemma replicate_empty_all_ids (P : option DocId → Prop) n :
  all_ids P (replicate n ([] : bucket_map)).
Proof. intros bin k ids x ->%elem_of_replicate_inv []%elem_of_nil. Qed.

Lemma replicate_empty_sets_NoDup n : sets_NoDup (replicate n ([] : bucket_map)).
Proof. intros bin k ids ->%elem_of_replicate_inv []%elem_of_nil. Qed.

Lemma Cache_init_well_formed h nb c :
  0 < nb → Cache_init h nb = inr c → well_formed c.
Proof.
  intros Hnb (_ & Hn & _ & Hb & _)%Cache_init_inv. split.
  - by rewrite Hn.
  - by rewrite Hb, Hn, length_replicate.
  - rewrite Hb. apply replicate_empty_sets_NoDup.
Qed.

Lemma call_step_ids_in_store c c' : call_step py_hash c c' → ids_in_store c → ids_in_store c'.
Proof.
  assert (∀ c doc doc_id mj, ids_in_store c →
            ids_in_store (state (get_duplicates_of py_hash c doc doc_id mj))) as Hq.
  { intros c1 doc doc_id mj Hinv.
    destruct (get_duplicates_of_state py_hash c1 doc doc_id mj) as [-> |[bands ->]]; [done|].
    destruct (collect_candidates_all_ids py_hash
                (λ x, is_Some (Dict.get (fingerprints c1) x)) bands (bins c1) [])
      as [Hall _]; [exact Hinv | by intros x ?%elem_of_nil | exact Hall]. }
  intros [c0 doc doc_id|c0 doc doc_id mj|c0 doc doc_id] Hinv.
  - by apply update_ids_in_store.
  - by apply Hq.
  - destruct (is_duplicate_state py_hash c0 doc doc_id) as [-> | ->]; [done | by apply Hq].
Qed.

Lemma reachable_ids_in_store_aux h nb c : reachable py_hash h nb c → ids_in_store c.
Proof.
  induction 1 as [c Hinit|c c' _ IH Hstep|c _ IH].
  - apply Cache_init_inv in Hinit as (_ & _ & _ & Hb & _).
    unfold ids_in_store. rewrite Hb. apply replicate_empty_all_ids.
  - by eapply call_step_ids_in_store.
  - unfold ids_in_store. simpl. apply replicate_empty_all_ids.
Qed.

Lemma get_all_duplicates_returns c t :
  ids_in_store c → ∃ R, result (get_all_duplicates c (Some t)) = inr R.
Proof.
  intros Hinv. simpl. rewrite result_filter_candidates. apply filter_pairs_total.
  intros a b. by apply ids_in_store_candidate_pairs.
Qed.

Lemma get_duplicates_of_no_KeyError c doc doc_id min_jaccard :
  ids_in_store c →
  result (get_duplicates_of py_hash c doc doc_id min_jaccard) ≠ inl KeyError.
Proof.
  intros Hinv. unfold get_duplicates_of.
  destruct (resolve_fingerprint c doc doc_id) as [e|fp] eqn:Hr; simpl.
  { apply resolve_fingerprint_error in Hr as (-> & _). done. }
  unfold duplicates_by_fingerprint. destruct (bins_ c fp) as [e|bands] eqn:Hb; simpl.
  { apply bins__error in Hb as ->. done. }
  destruct (collect_candidates py_hash bands (bins c) []) as [bs [e|cands]] eqn:Hc; simpl.
  { pose proof (collect_candidates_error py_hash bands (bins c) [] e) as He.
    rewrite Hc in He. by rewrite He. }
  destruct min_jaccard as [t|]; [|done].
  destruct (filter_ids_total (with_bins c bs) fp cands t []) as [R ->]; [|done].
  destruct (collect_candidates_all_ids py_hash
              (λ x, is_Some (Dict.get (fingerprints c) x)) bands (bins c) [])
    as [_ Hcands]; [exact Hinv | by intros x ?%elem_of_nil |].
  rewrite Hc in Hcands. by apply Hcands.
Qed.

(** C10: in every state reachable from construction by calls of [update],
    [clear] (and of the queries, which only add empty buckets), every doc id
    found in a bucket is a key of the fingerprint store; hence
    [get_all_duplicates] with a threshold returns, and [get_duplicates_of]
    never fails on a fingerprint lookup. *)
Theorem reachable_ids_in_store h nb c :
  reachable py_hash h nb c →
  ids_in_store c
  ∧ (∀ t, ∃ R, result (get_all_duplicates c (Some t)) = inr R)
  ∧ (∀ doc doc_id min_jaccard,
       result (get_duplicates_of py_hash c doc doc_id min_jaccard) ≠ inl KeyError).
Proof.
  intros Hinv%reachable_ids_in_store_aux. split_and!.
  - done.
  - intros t. by apply get_all_duplicates_returns.
  - intros doc doc_id mj. by apply get_duplicates_of_no_KeyError.
Qed.

(** *** Banding correctness *)

Lemma call_step_num_bands c c' : call_step py_hash c c' → num_bands c' = num_bands c.
Proof.
  assert (∀ c doc doc_id mj,
            num_bands (state (get_duplicates_of py_hash c doc doc_id mj)) = num_bands c) as Hq.
  { intros c1 doc doc_id mj.
    by destruct (get_duplicates_of_state py_hash c1 doc doc_id mj) as [-> |[bands ->]]. }
  intros [c0 doc doc_id|c0 doc doc_id mj|c0 doc doc_id].
  - apply update_num_bands.
  - apply Hq.
  - destruct (is_duplicate_state py_hash c0 doc doc_id) as [-> | ->]; [done | apply Hq].
Qed.

Lemma call_step_shape_ok c c' : call_step py_hash c c' → shape_ok c → shape_ok c'.
Proof.
  assert (∀ c doc doc_id mj, shape_ok c →
            shape_ok (state (get_duplicates_of py_hash c doc doc_id mj))) as Hq.
  { intros c1 doc doc_id mj Hs.
    destruct (get_duplicates_of_state py_hash c1 doc doc_id mj) as [-> |[bands ->]]; [done|].
    unfold shape_ok. simpl. by rewrite collect_candidates_length. }
  intros [c0 doc doc_id|c0 doc doc_id mj|c0 doc doc_id] Hs.
  - by apply update_shape_ok.
  - by apply Hq.
  - destruct (is_duplicate_state py_hash c0 doc doc_id) as [-> | ->]; [done | by apply Hq].
Qed.

Lemma reachable_shape_ok h nb c : reachable py_hash h nb c → shape_ok c.
Proof.
  induction 1 as [c Hinit|c c' _ IH Hstep|c _ IH].
  - apply Cache_init_inv in Hinit as (_ & Hn & _ & Hb & _).
    unfold shape_ok. by rewrite Hb, Hn, length_replicate.
  - by eapply call_step_shape_ok.
  - unfold shape_ok. simpl. apply length_replicate.
Qed.

Lemma indexed_id_grow c bs x :
  bins_le (bins c) bs → indexed_id py_hash c x → indexed_id py_hash (with_bins c bs) x.
Proof.
  intros Hle Hidx fp bands Hg Hb. simpl in *.
  eapply lands_le; [done|]. by eapply Hidx.
Qed.

Lemma update_indexed_id_new c doc doc_id :
  shape_ok c → indexed_id py_hash (state (update py_hash c doc doc_id)) doc_id.
Proof.
  intros Hs fp bands. rewrite update_fingerprints, get_set_eq.
  unfold bins_. rewrite update_num_bands. fold (bins_ c fp).
  intros [= <-] Hb. by apply update_lands.
Qed.

Lemma update_indexed_id c doc doc_id x :
  shape_ok c → indexed_id py_hash c x →
  indexed_id py_hash (state (update py_hash c doc doc_id)) x.
Proof.
  intros Hs Hidx. destruct (decide (doc_id = x)) as [<-|Hne].
  { by apply update_indexed_id_new. }
  intros fp bands. rewrite update_fingerprints, get_set_ne by done.
  unfold bins_. rewrite update_num_bands. fold (bins_ c fp). intros Hg Hb.
  eapply lands_le; [apply update_bins_le|]. by eapply Hidx.
Qed.

Lemma call_step_indexed_id c c' x :
  call_step py_hash c c' → shape_ok c → indexed_id py_hash c x → indexed_id py_hash c' x.
Proof.
  assert (∀ c doc doc_id mj, indexed_id py_hash c x →
            indexed_id py_hash (state (get_duplicates_of py_hash c doc doc_id mj)) x) as Hq.
  { intros c1 doc doc_id mj Hidx.
    destruct (get_duplicates_of_state py_hash c1 doc doc_id mj) as [-> |[bands ->]]; [done|].
    apply indexed_id_grow; [apply collect_candidates_le | done]. }
  intros [c0 doc doc_id|c0 doc doc_id mj|c0 doc doc_id] Hs Hidx.
  - by apply update_indexed_id.
  - by apply Hq.
  - destruct (is_duplicate_state py_hash c0 doc doc_id) as [-> | ->]; [done | by apply Hq].
Qed.

Lemma registered_invariants h nb c x :
  registered py_hash h nb c x → shape_ok c ∧ indexed_id py_hash c x.
Proof.
  induction 1 as [c doc x Hreach|c c' x _ [IHs IHi] Hstep].
  - apply reachable_shape_ok in Hreach. split.
    + by apply update_shape_ok.
    + by apply update_indexed_id_new.
  - split; [by eapply call_step_shape_ok | by eapply call_step_indexed_id].
Qed.

Lemma registered_reachable h nb c x :
  registered py_hash h nb c x → reachable py_hash h nb c.
Proof.
  induction 1 as [c doc x Hreach|c c' x _ IH Hstep].
  - eapply reachable_step; [done | apply step_update].
  - by eapply reachable_step.
Qed.

(** A query with fingerprint [fp] finds every registered id whose stored
    fingerprint shares a band with [fp]. *)
Lemma duplicates_by_fingerprint_finds c fp bands x fpx bandsx k band :
  shape_ok c → indexed_id py_hash c x →
  Dict.get (fingerprints c) x = Some fpx →
  bins_ c fp = inr bands → bins_ c fpx = inr bandsx →
  (k, band) ∈ bands → (k, band) ∈ bandsx →
  ∃ dups, result (duplicates_by_fingerprint py_hash c fp None) = inr dups ∧ x ∈ dups.
Proof.
  intros Hs Hidx Hg Hb Hbx Hk Hkx. rewrite duplicates_by_fingerprint_result, Hb.
  destruct (collect_candidates_ok py_hash bands (bins c) []) as [dups Hd].
  { by eapply bins__in_range. }
  exists dups. split; [done|].
  destruct (Hidx fpx bandsx Hg Hbx k band Hkx) as (b & ids & Hbk & Hget & Hx).
  destruct (collect_candidates_complete py_hash bands (bins c) [] dups Hd) as [_ Hall].
  by eapply Hall.
Qed.


(** The same for a query by content: the document asked for need not be
    registered, and the id found may be unset. *)
Lemma banding_correctness_by_content h nb c (d : string) x fpx bands bandsx k band :
  registered py_hash h nb c x →
  Dict.get (fingerprints c) x = Some fpx →
  bins_ c (fingerprint (hasher c) (encode_utf8 d)) = inr bands →
  bins_ c fpx = inr bandsx →
  (k, band) ∈ bands → (k, band) ∈ bandsx →
  ∃ dups, result (get_duplicates_of py_hash c (Some d) None None) = inr dups ∧ x ∈ dups.
Proof.
  intros [Hs Hidx]%registered_invariants Hx Hb Hbx Hk Hkx.
  unfold get_duplicates_of. rewrite resolve_fingerprint_content by done.
  by eapply duplicates_by_fingerprint_finds.
Qed.
(** *** What a registered id finds for itself *)

Lemma call_step_fingerprints c c' x :
  call_step py_hash c c' → is_Some (Dict.get (fingerprints c) x) →
  is_Some (Dict.get (fingerprints c') x).
Proof.
  assert (∀ c doc doc_id mj,
            fingerprints (state (get_duplicates_of py_hash c doc doc_id mj))
            = fingerprints c) as Hq.
  { intros c1 doc doc_id mj.
    by destruct (get_duplicates_of_state py_hash c1 doc doc_id mj) as [-> |[bands ->]]. }
  intros [c0 doc doc_id|c0 doc doc_id mj|c0 doc doc_id] Hx.
  - rewrite update_fingerprints. destruct (decide (doc_id = x)) as [->|Hne].
    + by rewrite get_set_eq.
    + by rewrite get_set_ne.
  - by rewrite Hq.
  - destruct (is_duplicate_state py_hash c0 doc doc_id) as [-> | ->]; [done | by rewrite Hq].
Qed.

Lemma registered_in_store h nb c x :
  registered py_hash h nb c x → is_Some (Dict.get (fingerprints c) x).
Proof.
  induction 1 as [c doc x Hreach|c c' x _ IH Hstep].
  - by rewrite update_fingerprints, get_set_eq.
  - by eapply call_step_fingerprints.
Qed.

Lemma reachable_num_bands h nb c : reachable py_hash h nb c → num_bands c = nb.
Proof.
  induction 1 as [c Hinit|c c' _ IH Hstep|c _ IH]; [|by erewrite call_step_num_bands|done].
  by apply Cache_init_inv in Hinit as (_ & ? & _).
Qed.

Lemma bins__first_band c fp bands :
  bins_ c fp = inr bands → ∃ band, (0%nat, band) ∈ bands.
Proof.
  unfold bins_. destruct (array_split fp (num_bands c)) as [|sections] eqn:Hs; [done|].
  intros [= <-]. apply array_split_Some in Hs as [Hnb Hlen].
  destruct sections as [|band sections]; [simpl in Hlen; lia|].
  exists band. by apply elem_of_enumerate.
Qed.

(** A registered doc id is among its own duplicates. *)
Lemma registered_finds_itself h nb c (i : DocId) :
  0 < nb → registered py_hash h nb c (Some i) →
  ∃ dups, result (get_duplicates_of py_hash c None (Some i) None) = inr dups
          ∧ Some i ∈ dups.
Proof.
  intros Hnb Hreg. destruct (registered_in_store _ _ _ _ Hreg) as [fp Hfp].
  pose proof (reachable_num_bands _ _ _ (registered_reachable _ _ _ _ Hreg)) as Hn.
  destruct (registered_invariants _ _ _ _ Hreg) as [Hs Hidx].
  destruct (bins__total c fp) as [bands Hb]; [lia|].
  destruct (bins__first_band _ _ _ Hb) as [band Hband].
  unfold get_duplicates_of. rewrite (resolve_fingerprint_stored _ _ _ _ Hfp).
  by eapply duplicates_by_fingerprint_finds.
Qed.
End reachability.

(** ** Pairs reported by [get_all_duplicates] *)


(** ** Persistence round trip *)

Section roundtrip.
Import PySetFacts DictFacts.
Variable py_hash : list Z → Z.

Lemma of_items_str_keys {V : Type} (items : list (string * V)) (f : V → list (option DocId))
    (acc : bucket_map) z :
  Dict.get acc (KInt z) = None →
  Dict.get (foldl (λ d kv, Dict.set d kv.1 kv.2) acc
              (map (λ kv, (KStr kv.1, f kv.2)) items)) (KInt z) = None.
Proof.
  revert acc. induction items as [|[k v] items IH]; intros acc Hacc; simpl; [done|].
  apply IH. by rewrite get_set_ne.
Qed.

Lemma from_json_int_buckets_empty data c :
  from_json data = inr c → int_buckets_empty (bins c).
Proof.
  unfold from_json. destruct (Cache_init _ _) as [|cache]; [done|].
  destruct (key_typecast _) as [|func]; [done|].
  destruct (cast_fingerprints _ _ _) as [|fps]; [done|].
  intros [= <-] bin z ids. simpl.
  intros (bin0 & -> & _)%list_elem_of_fmap Hget.
  unfold Dict.of_items in Hget. by rewrite of_items_str_keys in Hget.
Qed.

Lemma collect_candidates_int_buckets_empty bands bs :
  int_buckets_empty bs →
  ∀ R, (collect_candidates py_hash bands bs []).2 = inr R → R = [].
Proof.
  revert bs. induction bands as [|[i band] bands IH]; intros bs Hbs R; simpl.
  - by intros [= <-].
  - destruct (bs !! i) as [b|] eqn:Hi; [|done].
    assert (b ∈ bs) as Hb by by eapply list_elem_of_lookup_2.
    unfold bucket_read. destruct (Dict.get b (KInt (py_hash band))) as [ids|] eqn:Hk.
    + rewrite (Hbs _ _ _ Hb Hk). rewrite list_insert_id by done. by apply IH.
    + simpl. apply IH. intros bin z ids [->|Hbin]%elem_of_list_insert_inv; [|by eapply Hbs].
      destruct (decide (KInt (py_hash band) = KInt z)) as [<-|Hne].
      * rewrite get_set_eq. by intros [= <-].
      * rewrite get_set_ne by done. by eapply Hbs.
Qed.

(** Whatever was registered before the export, no query on the imported
    cache finds a candidate: the bucket keys come back from JSON as strings,
    and the queries look buckets up by integer hash. *)
Lemma from_json_queries_find_nothing data c doc doc_id dups :
  from_json data = inr c →
  result (get_duplicates_of py_hash c doc doc_id None) = inr dups → dups = [].
Proof.
  intros Hbs%from_json_int_buckets_empty. unfold get_duplicates_of.
  destruct (resolve_fingerprint c doc doc_id) as [|fp]; [done|].
  rewrite duplicates_by_fingerprint_result. destruct (bins_ c fp) as [|bands]; [done|].
  by apply collect_candidates_int_buckets_empty.
Qed.
(** For every index with a positive number of bands and every doc id
    registered in it, the answer of [get_duplicates_of(doc_id=i)] changes
    across the round trip: it holds [i] before and nothing after. *)
Lemma roundtrip_changes_every_answer h nb c c' (i : DocId) :
  0 < nb → registered py_hash h nb c (Some i) →
  from_json (to_json c) = inr c' →
  result (get_duplicates_of py_hash c None (Some i) None)
  ≠ result (get_duplicates_of py_hash c' None (Some i) None).
Proof.
  intros Hnb Hreg Hjson Heq.
  destruct (registered_finds_itself py_hash h nb c i Hnb Hreg) as (dups & Hd & Hi).
  rewrite Hd in Heq. symmetry in Heq.
  apply (from_json_queries_find_nothing _ _ _ _ _ Hjson) in Heq. subst dups.
  by apply elem_of_nil in Hi.
Qed.
End roundtrip.

(** ** The model on concrete inputs *)

Module Scenario.
Import Example.

Lemma new_cache_init : Cache_init hasher2 2 = inr (new_cache 2).
Proof. reflexivity. Qed.

Lemma new_cache_well_formed : well_formed (new_cache 2).
Proof. apply (Cache_init_well_formed hasher2 2); [lia | apply new_cache_init]. Qed.



Lemma both_orders_registered_8 : registered hash31 hasher2 2 both_orders (Some (IdInt 8)).
Proof.
  unfold both_orders. eapply registered_step; [|apply step_update].
  unfold second_call. apply registered_update.
  unfold first_call. eapply reachable_step; [|apply step_update].
  apply reachable_init, new_cache_init.
Qed.


Lemma both_orders_reachable : reachable hash31 hasher2 2 both_orders.
Proof.
  unfold both_orders, second_call, first_call.
  do 3 (eapply reachable_step; [|apply step_update]).
  apply reachable_init, new_cache_init.
Qed.
End Scenario.

(** In CPython the ids 0 and 8 of the scenario below are iterated in the
    order of their insertion, as in the model of sets used here. *)
Lemma cpython_set_0_8_insertion_order :
  CPythonSet.iterate (CPythonSet.add 0 (CPythonSet.add 8 CPythonSet.empty)) = [8; 0]
  ∧ CPythonSet.iterate (CPythonSet.add 8 (CPythonSet.add 0 CPythonSet.empty)) = [0; 8].
Proof. split; reflexivity. Qed.



(** C1, at the failing input: before the export [get_duplicates_of(doc_id=1)]
    returns [{1}]; on the cache read back by [from_json] it returns the empty
    set. *)
Theorem roundtrip_loses_duplicates_of :
  result (get_duplicates_of Example.hash31 Example.one_doc None (Some (IdInt 1)) None)
  = inr [Some (IdInt 1)]
  ∧ match from_json (to_json Example.one_doc) with
    | inr c =>
        Dict.get (fingerprints c) (Some (IdInt 1)) = Some [97; 98]
        ∧ Dict.keys <$> bins c = [[KStr "314"]; [KStr "315"]]
        ∧ result (get_duplicates_of Example.hash31 c None (Some (IdInt 1)) None) = inr []
    | inl _ => False
    end.
Proof. vm_compute. repeat split. Qed.

(** The second slip of [from_json], [func(k[0])]: the key of doc id 12 comes
    back as 1, and a query for doc id 12 raises. *)
Lemma roundtrip_truncates_ids :
  match from_json (to_json Example.two_digits) with
  | inr c =>
      Dict.keys (fingerprints c) = [Some (IdInt 1)]
      ∧ result (get_duplicates_of Example.hash31 c None (Some (IdInt 12)) None)
        = inl (ValueError must_provide_msg)
  | inl _ => False
  end.
Proof. vm_compute. repeat split. Qed.

Lemma get_all_duplicates_filtered_witness :
  ids_in_store Example.both_orders
  ∧ ∃ R, result (get_all_duplicates Example.both_orders (Some (1 # 4)%Q)) = inr R
         ∧ ∀ a b, (a, b) ∈ R →
             ∃ fa fb, Dict.get (fingerprints Example.both_orders) a = Some fa
                      ∧ Dict.get (fingerprints Example.both_orders) b = Some fb
                      ∧ (1 # 4 < jaccard (hasher Example.both_orders) fa fb)%Q.
Proof.
  pose proof (reachable_ids_in_store_aux _ _ _ _ Scenario.both_orders_reachable) as Hinv.
  split; [exact Hinv|].
  destruct (get_all_duplicates_filtered Example.both_orders (1 # 4)%Q) as [Hret Hspec].
  destruct (Hret Hinv) as [R HR]. exists R. split; [exact HR|].
  destruct (Hspec R HR) as (All & _ & _ & _ & _ & Hscore). exact Hscore.
Defined.


Lemma is_duplicate_spec_witness :
  well_formed Example.one_doc
  ∧ ∃ b, result (is_duplicate Example.hash31 Example.one_doc (Some "ab") None) = inr b.
Proof.
  assert (well_formed Example.one_doc) as Hwf.
  { apply update_well_formed, Scenario.new_cache_well_formed. }
  split; [exact Hwf|].
  destruct (is_duplicate_spec Example.hash31 Example.one_doc "ab" None Hwf)
    as (b & Hb & _).
  exists b. exact Hb.
Defined.

Lemma get_duplicates_of_resolution_witness :
  result (get_duplicates_of Example.hash31 Example.one_doc None (Some (IdInt 7)) None)
  = inl (ValueError must_provide_msg).
Proof.
  destruct (get_duplicates_of_resolution Example.hash31 Example.one_doc
              None (Some (IdInt 7)) None) as [[_ Hraise] _].
  apply Hraise. split; [reflexivity|]. right. vm_compute. reflexivity.
Defined.

Lemma update_twice_witness :
  well_formed (Example.new_cache 2)
  ∧ logged (update Example.hash31 Example.one_doc "ab" (Some (IdInt 1)))
    = [Warning_DuplicateId (IdInt 1)]
  ∧ bins (state (update Example.hash31 Example.one_doc "ab" (Some (IdInt 1))))
    = bins Example.one_doc.
Proof.
  pose proof Scenario.new_cache_well_formed as Hwf. split; [exact Hwf|].
  destruct (update_twice Example.hash31 (Example.new_cache 2) "ab" (Some (IdInt 1)) Hwf)
    as (_ & _ & Hbins & _ & Hlog & _).
  split; [exact Hlog | exact Hbins].
Defined.

Lemma reachable_ids_in_store_witness :
  reachable Example.hash31 Example.hasher2 2 (clear Example.both_orders)
  ∧ ids_in_store (clear Example.both_orders)
  ∧ ∃ R, result (get_all_duplicates (clear Example.both_orders) (Some (1 # 2)%Q)) = inr R.
Proof.
  assert (reachable Example.hash31 Example.hasher2 2 (clear Example.both_orders)) as Hr.
  { apply reachable_clear, Scenario.both_orders_reachable. }
  split; [exact Hr|].
  destruct (reachable_ids_in_store Example.hash31 Example.hasher2 2
              (clear Example.both_orders) Hr) as (Hinv & Hall & _).
  split; [exact Hinv | apply Hall].
Defined.

(** With the doc id unset, a repeated registration is stored under the key
    [None] again and logs nothing: the warning is guarded by
    [doc_id is not None]. *)
Lemma update_unset_id_logs_nothing (py_hash : list Z → Z) (c : Cache) (doc : string) :
  logged (update py_hash (state (update py_hash c doc None)) doc None) = [].
Proof. by rewrite update_logged. Qed.

(** * Further properties of the code *)

(** ** What the bands of a fingerprint are *)

Section partition.
Context {A : Type}.
Implicit Types (ary : list A) (sizes : list nat).

Lemma split_sizes_lengths sizes ary :
  (sum_list sizes ≤ length ary)%nat → length <$> split_sizes sizes ary = sizes.
Proof.
  revert ary. induction sizes as [|n sizes IH]; intros ary Hsum; simpl in *; [done|].
  rewrite length_take, IH by (rewrite length_drop; lia). f_equal. lia.
Qed.

Lemma split_sizes_concat sizes ary :
  sum_list sizes = length ary → concat (split_sizes sizes ary) = ary.
Proof.
  revert ary. induction sizes as [|n sizes IH]; intros ary Hsum; simpl in *.
  - symmetry in Hsum. by apply length_zero_iff_nil in Hsum.
  - rewrite IH by (rewrite length_drop; lia). apply take_drop.
Qed.

Lemma sum_list_append (l k : list nat) :
  sum_list (l ++ k) = (sum_list l + sum_list k)%nat.
Proof. induction l as [|x l IH]; simpl; [done | rewrite IH; lia]. Qed.

Lemma array_split_sizes ary n sections :
  array_split ary n = inr sections →
  let k := Z.to_nat n in
  length <$> sections
  = (replicate (length ary `mod` k)%nat (S (length ary / k)%nat)
     ++ replicate (k - length ary `mod` k)%nat (length ary / k)%nat)%list
  ∧ concat sections = ary.
Proof.
  unfold array_split. case_decide as Hn; [done|]. intros [= <-]. cbv zeta.
  set (k := Z.to_nat n). assert (k ≠ 0)%nat as Hk by (unfold k; lia).
  pose proof (Nat.div_mod (length ary) k Hk) as Hdm.
  pose proof (Nat.mod_upper_bound (length ary) k Hk) as Hlt.
  assert (sum_list (replicate (length ary `mod` k)%nat (S (length ary / k)%nat)
                    ++ replicate (k - length ary `mod` k)%nat (length ary / k)%nat)%list
          = length ary) as Hsum.
  { rewrite sum_list_append, !sum_list_replicate. nia. }
  split; [apply split_sizes_lengths; lia | by apply split_sizes_concat].
Qed.

Lemma enumerate_fst_snd (xs : list A) :
  (enumerate xs).*1 = seq 0 (length xs) ∧ (enumerate xs).*2 = xs.
Proof.
  unfold enumerate.
  assert (∀ n, (imap (λ i x, (n + i, x)%nat) xs).*1 = seq n (length xs)
               ∧ (imap (λ i x, (n + i, x)%nat) xs).*2 = xs) as Hgen.
  { induction xs as [|x xs IH]; intros n; [done|].
    rewrite imap_cons, !fmap_cons. cbn [fst snd length seq].
    rewrite (imap_ext _ (λ i y, (S n + i, y)%nat)) by (intros; simpl; f_equal; lia).
    destruct (IH (S n)) as [-> ->]. by rewrite Nat.add_0_r. }
  exact (Hgen 0%nat).
Qed.
End partition.

(** X1: for a positive number of bands, [bins_] yields exactly [num_bands]
    bands, numbered from 0 in order, whose concatenation is the fingerprint;
    the first [len % num_bands] bands hold one value more than the others,
    so a fingerprint of [num_bands * w] values is cut into bands of [w]
    values each. *)
Theorem bins__partition (c : Cache) (fp : list Z) :
  0 < num_bands c →
  ∃ bands, bins_ c fp = inr bands
    ∧ bands.*1 = seq 0 (Z.to_nat (num_bands c))
    ∧ concat bands.*2 = fp
    ∧ length <$> bands.*2
      = (replicate (length fp `mod` Z.to_nat (num_bands c))%nat
           (S (length fp / Z.to_nat (num_bands c))%nat)
         ++ replicate (Z.to_nat (num_bands c) - length fp `mod` Z.to_nat (num_bands c))%nat
              (length fp / Z.to_nat (num_bands c))%nat)%list
    ∧ ∀ w, length fp = (Z.to_nat (num_bands c) * w)%nat →
        Forall (λ band, length band = w) bands.*2.
Proof.
  intros Hnb. unfold bins_.
  destruct (array_split_total fp (num_bands c) Hnb) as [sections Hs]. rewrite Hs.
  destruct (array_split_Some _ _ _ Hs) as [_ Hlen].
  destruct (array_split_sizes _ _ _ Hs) as [Hsizes Hcat].
  destruct (enumerate_fst_snd sections) as [H1 H2].
  exists (enumerate sections). rewrite H1, H2, Hlen. split_and!; [done..|].
  intros w Hw. assert (Z.to_nat (num_bands c) ≠ 0)%nat as Hk by lia.
  assert (length fp `mod` Z.to_nat (num_bands c) = 0)%nat as Hmod.
  { rewrite Hw, Nat.mul_comm. by apply Nat.Div0.mod_mul. }
  assert (length fp / Z.to_nat (num_bands c) = w)%nat as Hdiv.
  { rewrite Hw, Nat.mul_comm. by apply Nat.div_mul. }
  rewrite Hmod, Hdiv, Nat.sub_0_r in Hsizes. simpl in Hsizes.
  apply Forall_forall. intros band Hband.
  assert (length band ∈ length <$> sections) as Hin by by apply list_elem_of_fmap_2.
  rewrite Hsizes in Hin. by apply elem_of_replicate_inv in Hin.
Qed.

Lemma bins__partition_witness :
  0 < num_bands (Example.new_cache 2)
  ∧ ∃ bands, bins_ (Example.new_cache 2) [5; 6; 7; 8] = inr bands
             ∧ concat bands.*2 = [5; 6; 7; 8].
Proof.
  split; [reflexivity|].
  destruct (bins__partition (Example.new_cache 2) [5; 6; 7; 8]) as (bands & Hb & _ & Hcat & _).
  - reflexivity.
  - exists bands. split; [exact Hb | exact Hcat].
Defined.

(** ** The contents of the buckets *)

Lemma nil_iff_no_member {A : Type} (l : list A) : l = [] ↔ ∀ x, x ∉ l.
Proof.
  split; [intros -> x; apply not_elem_of_nil|].
  destruct l as [|y l]; [done|]. intros Hl. destruct (Hl y). apply elem_of_cons. by left.
Qed.

Section bucket_contents.
Import PySetFacts DictFacts.
Variable py_hash : list Z → Z.
Implicit Types (c : Cache) (b : bucket_map) (bs : list bucket_map)
  (bands : list (nat * list Z)) (x y doc_id : option DocId) (k : pykey).

Lemma bucket_ids_lookup bs i b k :
  bs !! i = Some b → bucket_ids bs i k = default [] (Dict.get b k).
Proof. intros Hi. unfold bucket_ids. by rewrite Hi. Qed.

Lemma bucket_ids_insert bs i b b' j k :
  bs !! i = Some b →
  bucket_ids (<[i:=b']> bs) j k
  = if decide (j = i) then default [] (Dict.get b' k) else bucket_ids bs j k.
Proof.
  intros Hi. unfold bucket_ids. case_decide as Hj.
  - subst j. by rewrite list_lookup_insert_eq by by eapply lookup_lt_Some.
  - by rewrite list_lookup_insert_ne.
Qed.

Lemma bucket_ids_replicate_empty n i k : bucket_ids (replicate n []) i k = [].
Proof.
  unfold bucket_ids. destruct (replicate n [] !! i) as [b|] eqn:Hi; [|done].
  by apply lookup_replicate in Hi as [-> _].
Qed.

Lemma bucket_read_ids b k0 k :
  default [] (Dict.get (bucket_read b k0).1 k) = default [] (Dict.get b k).
Proof.
  unfold bucket_read. destruct (Dict.get b k0) as [ids|] eqn:Hk0; simpl; [done|].
  destruct (decide (k0 = k)) as [<-|Hne].
  - by rewrite get_set_eq, Hk0.
  - by rewrite get_set_ne.
Qed.

Lemma bucket_read_snd b k0 : (bucket_read b k0).2 = default [] (Dict.get b k0).
Proof. unfold bucket_read. by destruct (Dict.get b k0). Qed.

Lemma bucket_add_ids b k0 x k :
  default [] (Dict.get (bucket_add b k0 x) k)
  = if decide (k = k0) then PySet.add x (default [] (Dict.get b k0))
    else default [] (Dict.get b k).
Proof.
  case_decide as Hk.
  - subst k. by rewrite bucket_add_get_eq.
  - unfold bucket_add. by rewrite get_set_ne.
Qed.

Lemma collect_candidates_bucket_ids bands bs acc i k :
  bucket_ids (collect_candidates py_hash bands bs acc).1 i k = bucket_ids bs i k.
Proof.
  revert bs acc. induction bands as [|[j band] bands IH]; intros bs acc; simpl; [done|].
  destruct (bs !! j) as [b|] eqn:Hj; [|done].
  destruct (bucket_read b (KInt (py_hash band))) as [b' ids] eqn:Hread.
  rewrite IH, (bucket_ids_insert _ _ b) by done. case_decide as Hij; [|done].
  subst j. rewrite (bucket_ids_lookup _ _ _ _ Hj).
  pose proof (bucket_read_ids b (KInt (py_hash band)) k) as Hids.
  by rewrite Hread in Hids.
Qed.

Lemma collect_candidates_elem_of bands bs acc R :
  (collect_candidates py_hash bands bs acc).2 = inr R →
  ∀ x, x ∈ R ↔ x ∈ acc ∨ ∃ i band, (i, band) ∈ bands
                           ∧ x ∈ bucket_ids bs i (KInt (py_hash band)).
Proof.
  revert bs acc. induction bands as [|[j band] bands IH]; intros bs acc; simpl.
  - intros [= <-] x. split; [by left|]. by intros [?|(i & bd & ?%elem_of_nil & _)].
  - destruct (bs !! j) as [b|] eqn:Hj; [|done].
    destruct (bucket_read b (KInt (py_hash band))) as [b' ids] eqn:Hread.
    intros HR x. rewrite (IH _ _ HR x), elem_of_update. clear IH HR.
    assert (ids = bucket_ids bs j (KInt (py_hash band))) as ->.
    { rewrite (bucket_ids_lookup _ _ _ _ Hj), <- bucket_read_snd. by rewrite Hread. }
    assert (∀ i k, bucket_ids (<[j:=b']> bs) i k = bucket_ids bs i k) as Hsame.
    { intros i k. rewrite (bucket_ids_insert _ _ b) by done. case_decide as Hij; [|done].
      subst i. rewrite (bucket_ids_lookup _ _ _ _ Hj).
      pose proof (bucket_read_ids b (KInt (py_hash band)) k) as Hids.
      by rewrite Hread in Hids. }
    split.
    + intros [[?|?]|(i & bd & Hin & Hx)].
      * by left.
      * right. exists j, band. split; [apply elem_of_cons; by left | done].
      * right. exists i, bd. rewrite Hsame in Hx. split; [apply elem_of_cons; by right | done].
    + intros [?|(i & bd & [[= -> ->]|Hin]%elem_of_cons & Hx)].
      * left. by left.
      * left. by right.
      * right. exists i, bd. by rewrite Hsame.
Qed.

Lemma insert_bands_bucket_ids doc_id bands bs i k y :
  (insert_bands py_hash doc_id bands bs).2 = None →
  y ∈ bucket_ids (insert_bands py_hash doc_id bands bs).1 i k
  ↔ y ∈ bucket_ids bs i k
    ∨ (y = doc_id ∧ ∃ band, (i, band) ∈ bands ∧ k = KInt (py_hash band)).
Proof.
  revert bs. induction bands as [|[j band] bands IH]; intros bs; simpl.
  - intros _. split; [by left|]. by intros [?|(_ & bd & ?%elem_of_nil & _)].
  - destruct (bs !! j) as [b|] eqn:Hj; [|done]. intros Hok. rewrite (IH _ Hok). clear IH Hok.
    rewrite (bucket_ids_insert _ _ b) by done.
    assert (y ∈ (if decide (i = j)
                 then default [] (Dict.get (bucket_add b (KInt (py_hash band)) doc_id) k)
                 else bucket_ids bs i k)
            ↔ y ∈ bucket_ids bs i k ∨ (y = doc_id ∧ i = j ∧ k = KInt (py_hash band))) as ->.
    { case_decide as Hij; [|split; [by left | by intros [?|(_ & ? & _)]]]. subst i.
      rewrite bucket_add_ids, (bucket_ids_lookup _ _ _ _ Hj).
      case_decide as Hk; [|split; [by left | by intros [?|(_ & _ & ?)]]].
      subst k. rewrite elem_of_add. split.
      - intros [->|?]; [by right | by left].
      - intros [?|(-> & _)]; [by right | by left]. }
    split.
    + intros [[?|(-> & -> & ->)]|(-> & bd & Hin & ->)].
      * by left.
      * right. split; [done|]. exists band. split; [apply elem_of_cons; by left | done].
      * right. split; [done|]. exists bd. split; [apply elem_of_cons; by right | done].
    + intros [?|(-> & bd & [[= -> ->]|Hin]%elem_of_cons & ->)].
      * left. by left.
      * left. right. done.
      * right. split; [done|]. by exists bd.
Qed.

Lemma elem_of_all_candidate_pairs_bucket_ids bs (p : option DocId * option DocId) :
  p ∈ all_candidate_pairs bs
  ↔ ∃ i k, (1 < length (bucket_ids bs i k))%nat ∧ p ∈ combinations2 (bucket_ids bs i k).
Proof.
  rewrite elem_of_all_candidate_pairs. split.
  - intros (bin & k & ids & (i & Hi)%list_elem_of_lookup & Hget & Hlen & Hp).
    exists i, k. by rewrite (bucket_ids_lookup _ _ _ _ Hi), Hget.
  - intros (i & k & Hlen & Hp). unfold bucket_ids in *.
    destruct (bs !! i) as [bin|] eqn:Hi; simpl in *; [|lia].
    destruct (Dict.get bin k) as [ids|] eqn:Hget; simpl in *; [|lia].
    exists bin, k, ids. split; [by eapply list_elem_of_lookup_2 | done].
Qed.

Lemma update_bucket_ids c (doc : string) doc_id bands i k y :
  shape_ok c →
  bins_ c (fingerprint (hasher c) (encode_utf8 doc)) = inr bands →
  y ∈ bucket_ids (bins (state (update py_hash c doc doc_id))) i k
  ↔ y ∈ bucket_ids (bins c) i k
    ∨ (y = doc_id ∧ ∃ band, (i, band) ∈ bands ∧ k = KInt (py_hash band)).
Proof.
  intros Hs Hb. rewrite update_bins, Hb. apply insert_bands_bucket_ids.
  apply insert_bands_ok. by eapply bins__in_range.
Qed.

(** X2: on an index with one bucket mapping per band, a call of [update]
    that finds the bands of the fingerprint adds the doc id to the bucket of
    each band and changes no other membership: nothing is removed and no
    other id is added anywhere.  In the store the doc id now maps to the new
    fingerprint (last write wins) and every other id maps to what it mapped
    to before. *)
Theorem update_effect c (doc : string) doc_id bands :
  shape_ok c →
  bins_ c (fingerprint (hasher c) (encode_utf8 doc)) = inr bands →
  let c' := state (update py_hash c doc doc_id) in
  result (update py_hash c doc doc_id) = inr ()
  ∧ (∀ i k y, y ∈ bucket_ids (bins c') i k
        ↔ y ∈ bucket_ids (bins c) i k
          ∨ (y = doc_id ∧ ∃ band, (i, band) ∈ bands ∧ k = KInt (py_hash band)))
  ∧ (∀ x, Dict.get (fingerprints c') x
        = if decide (x = doc_id)
          then Some (fingerprint (hasher c) (encode_utf8 doc))
          else Dict.get (fingerprints c) x).
Proof.
  intros Hs Hb c'. unfold c'.
  assert ((insert_bands py_hash doc_id bands (bins c)).2 = None) as Hok.
  { apply insert_bands_ok. by eapply bins__in_range. }
  split_and!.
  - by rewrite update_result, Hb, Hok.
  - intros i k y. by apply update_bucket_ids.
  - intros x. rewrite update_fingerprints. case_decide as Hx.
    + subst x. apply get_set_eq.
    + apply get_set_ne. congruence.
Qed.

(** X3: without threshold, [get_duplicates_of] returns exactly the union of
    the buckets the bands of the queried fingerprint fall in: an id is in
    the result if and only if it is a member of the bucket of some band. *)
Theorem get_duplicates_of_exact c doc doc_id dups :
  result (get_duplicates_of py_hash c doc doc_id None) = inr dups →
  ∃ fp bands, resolve_fingerprint c doc doc_id = inr fp
    ∧ bins_ c fp = inr bands
    ∧ NoDup dups
    ∧ ∀ x, x ∈ dups ↔ ∃ i band, (i, band) ∈ bands
                          ∧ x ∈ bucket_ids (bins c) i (KInt (py_hash band)).
Proof.
  unfold get_duplicates_of.
  destruct (resolve_fingerprint c doc doc_id) as [|fp] eqn:Hr; [done|].
  rewrite duplicates_by_fingerprint_result.
  destruct (bins_ c fp) as [|bands] eqn:Hb; [done|]. intros Hd.
  exists fp, bands. split_and!; [done..| |].
  - eapply collect_candidates_NoDup; [apply NoDup_nil_2 | done].
  - intros x. rewrite (collect_candidates_elem_of _ _ _ _ Hd x), elem_of_nil. tauto.
Qed.

(** X4: the queries leave the index as they found it, up to empty buckets
    created by reading the [defaultdict]s: after [get_duplicates_of] or
    [is_duplicate] the store is unchanged, every bucket has the members it
    had, and [get_all_duplicates()] reports the same pairs. *)
Theorem queries_change_nothing c c' :
  (∃ doc doc_id min_jaccard,
      c' = state (get_duplicates_of py_hash c doc doc_id min_jaccard))
  ∨ (∃ doc doc_id, c' = state (is_duplicate py_hash c doc doc_id)) →
  fingerprints c' = fingerprints c
  ∧ (∀ i k, bucket_ids (bins c') i k = bucket_ids (bins c) i k)
  ∧ (∀ p, p ∈ all_candidate_pairs (bins c') ↔ p ∈ all_candidate_pairs (bins c)).
Proof.
  assert (∀ doc doc_id mj,
            fingerprints (state (get_duplicates_of py_hash c doc doc_id mj)) = fingerprints c
            ∧ ∀ i k, bucket_ids (bins (state (get_duplicates_of py_hash c doc doc_id mj))) i k
                     = bucket_ids (bins c) i k) as Hq.
  { intros doc doc_id mj.
    destruct (get_duplicates_of_state py_hash c doc doc_id mj) as [-> |[bands ->]]; [done|].
    split; [done|]. intros i k. simpl. apply collect_candidates_bucket_ids. }
  intros Hc'.
  assert (fingerprints c' = fingerprints c
          ∧ ∀ i k, bucket_ids (bins c') i k = bucket_ids (bins c) i k) as [Hf Hids].
  { destruct Hc' as [(doc & doc_id & mj & ->)|(doc & doc_id & ->)]; [apply Hq|].
    destruct (is_duplicate_state py_hash c doc doc_id) as [-> | ->]; [done | apply Hq]. }
  split_and!; [done..|].
  intros p. rewrite !elem_of_all_candidate_pairs_bucket_ids.
  split; intros (i & k & Hlen & Hp); exists i, k; by rewrite ?Hids in *.
Qed.

(** X5: after [clear()] on an index with a positive number of bands, every
    query that resolves a fingerprint returns the empty set, also for a doc
    id whose fingerprint is still in the store, and [is_duplicate] answers
    [False] for every document. *)
Theorem queries_after_clear c :
  0 < num_bands c →
  (∀ doc doc_id min_jaccard fp,
      resolve_fingerprint (clear c) doc doc_id = inr fp →
      result (get_duplicates_of py_hash (clear c) doc doc_id min_jaccard) = inr [])
  ∧ (∀ (d : string) doc_id,
      result (is_duplicate py_hash (clear c) (Some d) doc_id) = inr false).
Proof.
  intros Hnb.
  assert (∀ fp mj, result (duplicates_by_fingerprint py_hash (clear c) fp mj) = inr []) as Hdbf.
  { intros fp mj. unfold duplicates_by_fingerprint.
    destruct (bins__total (clear c) fp Hnb) as [bands Hb]. rewrite Hb.
    destruct (collect_candidates_ok py_hash bands (bins (clear c)) []) as [R HR].
    { eapply bins__in_range; [|done]. unfold shape_ok. simpl. apply length_replicate. }
    assert (R = []) as ->.
    { apply nil_iff_no_member. intros x Hx.
      apply (collect_candidates_elem_of _ _ _ _ HR) in Hx as [Hx|(i & band & _ & Hx)].
      - by apply elem_of_nil in Hx.
      - simpl in Hx. rewrite bucket_ids_replicate_empty in Hx. by apply elem_of_nil in Hx. }
    destruct (collect_candidates py_hash bands (bins (clear c)) []) as [bs r].
    simpl in HR. subst r. simpl. by destruct mj. }
  split.
  - intros doc doc_id mj fp Hr. unfold get_duplicates_of. by rewrite Hr.
  - intros d doc_id. unfold is_duplicate. destruct (known (clear c) doc_id) eqn:Hk; [done|].
    unfold get_duplicates_of. rewrite resolve_fingerprint_content by done.
    by rewrite Hdbf.
Qed.

(** X6: registering a document and then asking [is_duplicate] for the same
    content: the answer is [False] under the id just registered (or any
    other id already in the store), and [True] under no id or an id the
    store does not know. *)
Theorem is_duplicate_after_update c (doc : string) (i : DocId) :
  well_formed c →
  let c' := state (update py_hash c doc (Some i)) in
  result (is_duplicate py_hash c' (Some doc) (Some i)) = inr false
  ∧ ∀ doc_id, known c' doc_id = false →
      result (is_duplicate py_hash c' (Some doc) doc_id) = inr true.
Proof.
  intros Hwf c'. set (fp := fingerprint (hasher c) (encode_utf8 doc)).
  destruct (bins__total c fp (wf_num_bands _ Hwf)) as [bands Hb].
  pose proof (λ i0 k y, update_bucket_ids c doc (Some i) bands i0 k y
                          (wf_bins_length _ Hwf) Hb) as Hids.
  fold c' in Hids.
  assert (known c' (Some i) = true) as Hki.
  { apply known_spec. exists i. split; [done|].
    unfold c'. rewrite update_fingerprints, get_set_eq. eauto. }
  split.
  - unfold is_duplicate. by rewrite Hki.
  - intros doc_id Hk. unfold is_duplicate. rewrite Hk.
    assert (well_formed c') as Hwf' by by apply update_well_formed.
    assert (hasher c' = hasher c) as Hh by apply update_hasher.
    unfold get_duplicates_of. rewrite resolve_fingerprint_content by done.
    rewrite Hh. fold fp.
    destruct (duplicates_by_fingerprint_total py_hash c' fp Hwf') as [dups Hd].
    rewrite Hd. simpl. do 2 f_equal. apply bool_decide_eq_true_2.
    assert (Some i ∈ PySet.difference dups [doc_id]) as Hin.
    { apply elem_of_difference. split.
      - rewrite duplicates_by_fingerprint_result in Hd.
        assert (bins_ c' fp = inr bands) as Hb'.
        { unfold bins_ in *. unfold c'. by rewrite update_num_bands. }
        rewrite Hb' in Hd. apply (collect_candidates_elem_of _ _ _ _ Hd). right.
        destruct (bins__first_band _ _ _ Hb) as [band Hband].
        exists 0%nat, band. split; [done|]. apply Hids. right. split; [done|]. by exists band.
      - intros Heq%list_elem_of_singleton. subst doc_id. congruence. }
    destruct (PySet.difference dups [doc_id]); [by apply elem_of_nil in Hin | simpl; lia].
Qed.
End bucket_contents.

(** ** Exact re-scoring *)

Section rescoring.
Import PySetFacts DictFacts.
Variable py_hash : list Z → Z.
Implicit Types (c : Cache) (t : Q).

Lemma filter_pairs_missing c pairs t res a b :
  (a, b) ∈ pairs →
  ¬ (is_Some (Dict.get (fingerprints c) a) ∧ is_Some (Dict.get (fingerprints c) b)) →
  filter_pairs c pairs t res = inl KeyError.
Proof.
  revert res. induction pairs as [|[id1 id2] pairs IH]; intros res Hin Hmiss; simpl.
  - by apply elem_of_nil in Hin.
  - destruct (Dict.get (fingerprints c) id1) as [fp1|] eqn:H1; [|done].
    destruct (Dict.get (fingerprints c) id2) as [fp2|] eqn:H2; [|done].
    apply elem_of_cons in Hin as [[= -> ->]|Hin]; [|by apply IH].
    destruct Hmiss. rewrite H1, H2. eauto.
Qed.

(** X7: [filter_candidates] leaves the cache as it is.  When both ids of
    every candidate pair are in the store it returns exactly the pairs whose
    stored fingerprints score above the threshold, and logs the two counts;
    when some pair holds an id that is not in the store it raises [KeyError]
    (no pair is skipped silently) after the first log record only. *)
Theorem filter_candidates_spec c (pairs : list (option DocId * option DocId)) t :
  state (filter_candidates c pairs t) = c
  ∧ ((∀ a b, (a, b) ∈ pairs →
        is_Some (Dict.get (fingerprints c) a) ∧ is_Some (Dict.get (fingerprints c) b)) →
     ∃ R, result (filter_candidates c pairs t) = inr R
          ∧ NoDup R
          ∧ (∀ p, p ∈ R ↔ p ∈ pairs ∧ scores_above c t p)
          ∧ logged (filter_candidates c pairs t)
            = [Info_ComputingJaccard (length pairs);
               Info_Keeping (length R) (length pairs)])
  ∧ ((∃ a b, (a, b) ∈ pairs
             ∧ ¬ (is_Some (Dict.get (fingerprints c) a)
                  ∧ is_Some (Dict.get (fingerprints c) b))) →
     result (filter_candidates c pairs t) = inl KeyError
     ∧ logged (filter_candidates c pairs t) = [Info_ComputingJaccard (length pairs)]).
Proof.
  unfold filter_candidates. split_and!.
  - by destruct (filter_pairs c pairs t []).
  - intros Hall. destruct (filter_pairs_total c pairs t [] Hall) as [R HR].
    rewrite HR. exists R. split_and!; [done| | |done].
    + eapply filter_pairs_NoDup; [done | apply NoDup_nil_2].
    + intros p. rewrite (filter_pairs_elem_of _ _ _ _ _ p HR), elem_of_nil. tauto.
  - intros (a & b & Hin & Hmiss).
    by rewrite (filter_pairs_missing c pairs t [] a b Hin Hmiss).
Qed.

Lemma filter_candidates_spec_witness :
  ∃ R, result (filter_candidates Example.both_orders
                 [(Some (IdInt 0), Some (IdInt 8))] (1 # 4)%Q) = inr R
       ∧ NoDup R.
Proof.
  destruct (filter_candidates_spec Example.both_orders
              [(Some (IdInt 0), Some (IdInt 8))] (1 # 4)%Q) as (_ & Hok & _).
  destruct Hok as (R & HR & Hnd & _).
  - intros a b [= -> ->]%list_elem_of_singleton. split; vm_compute; eauto.
  - exists R. split; [exact HR | exact Hnd].
Defined.

Lemma filter_ids_elem_of c fp candidates t res R x :
  filter_ids c fp candidates t res = inr R →
  x ∈ R ↔ x ∈ res
          ∨ (x ∈ candidates
             ∧ ∃ fpx, Dict.get (fingerprints c) x = Some fpx
                      ∧ (t < jaccard (hasher c) fp fpx)%Q).
Proof.
  revert res. induction candidates as [|y candidates IH]; intros res; simpl.
  - intros [= <-]. rewrite elem_of_nil. tauto.
  - destruct (Dict.get (fingerprints c) y) as [fpy|] eqn:Hy; [|done].
    intros HR. rewrite (IH _ HR). clear IH HR. rewrite elem_of_cons.
    destruct (Qgtb (jaccard (hasher c) fp fpy) t) eqn:Hgt.
    + rewrite elem_of_add. apply Qgtb_lt in Hgt. split; [|tauto].
      intros [[->|?]|?]; [|tauto..]. right. split; [by left|]. by exists fpy.
    + split; [tauto|]. intros [?|[[->|?] Hs]]; [tauto| |tauto].
      destruct Hs as (fpx & Hfx & Hlt). assert (fpx = fpy) as -> by congruence.
      apply Qgtb_lt in Hlt. congruence.
Qed.

Lemma filter_ids_NoDup c fp candidates t res R :
  filter_ids c fp candidates t res = inr R → NoDup res → NoDup R.
Proof.
  revert res. induction candidates as [|y candidates IH]; intros res; simpl.
  - by intros [= <-].
  - destruct (Dict.get (fingerprints c) y) as [fpy|]; [|done].
    intros HR Hres. apply (IH _ HR). case_match; [by apply NoDup_add | done].
Qed.

(** X8: with a threshold [t], [get_duplicates_of] returns exactly the ids
    of the unfiltered answer whose stored fingerprint scores strictly above
    [t] against the queried fingerprint; it returns whenever the unfiltered
    call does and every bucketed id is in the store. *)
Theorem get_duplicates_of_filtered c doc doc_id t :
  (∀ R, result (get_duplicates_of py_hash c doc doc_id (Some t)) = inr R →
     ∃ fp All, resolve_fingerprint c doc doc_id = inr fp
       ∧ result (get_duplicates_of py_hash c doc doc_id None) = inr All
       ∧ NoDup R
       ∧ ∀ x, x ∈ R ↔ x ∈ All
                       ∧ ∃ fpx, Dict.get (fingerprints c) x = Some fpx
                                ∧ (t < jaccard (hasher c) fp fpx)%Q)
  ∧ (ids_in_store c →
     ∀ All, result (get_duplicates_of py_hash c doc doc_id None) = inr All →
       ∃ R, result (get_duplicates_of py_hash c doc doc_id (Some t)) = inr R).
Proof.
  unfold get_duplicates_of.
  destruct (resolve_fingerprint c doc doc_id) as [e|fp] eqn:Hr; simpl; [by split|].
  unfold duplicates_by_fingerprint. destruct (bins_ c fp) as [e|bands] eqn:Hb; [by split|].
  destruct (collect_candidates py_hash bands (bins c) []) as [bs [e|cands]] eqn:Hc;
    simpl; [by split|].
  split.
  - intros R HR. exists fp, cands. split_and!; [done..| |].
    + eapply filter_ids_NoDup; [done | apply NoDup_nil_2].
    + intros x. rewrite (filter_ids_elem_of _ _ _ _ _ _ x HR), elem_of_nil. simpl. tauto.
  - intros Hinv All [= <-]. apply filter_ids_total. simpl.
    destruct (collect_candidates_all_ids py_hash
                (λ x, is_Some (Dict.get (fingerprints c) x)) bands (bins c) [])
      as [_ Hcands]; [exact Hinv | by intros x ?%elem_of_nil |].
    rewrite Hc in Hcands. by apply Hcands.
Qed.

End rescoring.

Lemma get_duplicates_of_filtered_witness :
  ids_in_store Example.both_orders
  ∧ ∃ R, result (get_duplicates_of Example.hash31 Example.both_orders
                   None (Some (IdInt 0)) (Some (1 # 4)%Q)) = inr R.
Proof.
  pose proof (reachable_ids_in_store_aux _ _ _ _ Scenario.both_orders_reachable) as Hinv.
  split; [exact Hinv|].
  destruct (get_duplicates_of_filtered Example.hash31 Example.both_orders
              None (Some (IdInt 0)) (1 # 4)%Q) as [_ Hret].
  apply (Hret Hinv [Some (IdInt 8); Some (IdInt 0)]). vm_compute. reflexivity.
Defined.


Lemma update_effect_witness :
  shape_ok (Example.new_cache 2)
  ∧ result (update Example.hash31 (Example.new_cache 2) "ab" (Some (IdInt 1))) = inr ().
Proof.
  assert (shape_ok (Example.new_cache 2)) as Hs by reflexivity.
  split; [exact Hs|].
  destruct (update_effect Example.hash31 (Example.new_cache 2) "ab" (Some (IdInt 1))
              [(0%nat, [97]); (1%nat, [98])] Hs) as (Hok & _).
  - reflexivity.
  - exact Hok.
Defined.

Lemma get_duplicates_of_exact_witness :
  ∃ fp bands, resolve_fingerprint Example.both_orders None (Some (IdInt 0)) = inr fp
              ∧ bins_ Example.both_orders fp = inr bands.
Proof.
  destruct (get_duplicates_of_exact Example.hash31 Example.both_orders None
              (Some (IdInt 0)) [Some (IdInt 8); Some (IdInt 0)])
    as (fp & bands & Hr & Hb & _).
  - vm_compute. reflexivity.
  - exists fp, bands. split; [exact Hr | exact Hb].
Defined.

Lemma queries_change_nothing_witness :
  fingerprints (state (is_duplicate Example.hash31 Example.one_doc (Some "zz") None))
  = fingerprints Example.one_doc.
Proof.
  destruct (queries_change_nothing Example.hash31 Example.one_doc
              (state (is_duplicate Example.hash31 Example.one_doc (Some "zz") None)))
    as (Hf & _).
  - right. exists (Some "zz"), None. reflexivity.
  - exact Hf.
Defined.

Lemma queries_after_clear_witness :
  0 < num_bands Example.both_orders
  ∧ result (is_duplicate Example.hash31 (clear Example.both_orders) (Some "xy") None)
    = inr false.
Proof.
  assert (0 < num_bands Example.both_orders) as Hnb by reflexivity.
  split; [exact Hnb|].
  destruct (queries_after_clear Example.hash31 Example.both_orders Hnb) as [_ Hdup].
  apply Hdup.
Defined.

Lemma is_duplicate_after_update_witness :
  well_formed (Example.new_cache 2)
  ∧ result (is_duplicate Example.hash31 Example.one_doc (Some "ab") None) = inr true.
Proof.
  pose proof Scenario.new_cache_well_formed as Hwf. split; [exact Hwf|].
  destruct (is_duplicate_after_update Example.hash31 (Example.new_cache 2) "ab" (IdInt 1) Hwf)
    as [_ Hnew].
  apply Hnew. reflexivity.
Defined.

(** ** Edge cases of construction and registration *)

Section edges.
Import PySetFacts DictFacts.
Variable py_hash : list Z → Z.

(** X9: the constructor accepts a negative [num_bands] that divides
    [num_seeds] (the list of bucket mappings is then empty), but on such a
    cache every [update] raises the [ValueError] of [numpy.array_split],
    after the fingerprint has been put in the store, and every query by
    content raises it too. *)
Theorem negative_num_bands (h : Hasher) (nb : Z) :
  nb < 0 → num_seeds h `mod` nb = 0 →
  ∃ c, Cache_init h nb = inr c
    ∧ bins c = []
    ∧ ∀ (doc : string) doc_id,
        result (update py_hash c doc doc_id)
        = inl (ValueError "number sections must be larger than 0.")
        ∧ bins (state (update py_hash c doc doc_id)) = []
        ∧ Dict.get (fingerprints (state (update py_hash c doc doc_id))) doc_id
          = Some (fingerprint h (encode_utf8 doc))
        ∧ result (get_duplicates_of py_hash c (Some doc) None None)
          = inl (ValueError "number sections must be larger than 0.").
Proof.
  intros Hnb Hmod. unfold Cache_init, py_mod, py_floordiv.
  destruct (decide (nb = 0)) as [|_]; [lia|].
  destruct (decide (num_seeds h `mod` nb = 0)) as [_|]; [|done].
  eexists. split; [reflexivity|]. simpl.
  assert (Z.to_nat nb = 0%nat) as -> by lia. split; [done|].
  intros doc doc_id.
  assert (∀ (c : Cache) fp, num_bands c = nb →
            bins_ c fp = inl (ValueError "number sections must be larger than 0.")) as Hb.
  { intros c fp Hc. unfold bins_, array_split. rewrite Hc. by rewrite decide_True by lia. }
  rewrite update_result, update_bins, update_fingerprints, !Hb by done. simpl.
  split_and!; [done..| |].
  - by rewrite decide_True.
  - unfold get_duplicates_of, resolve_fingerprint, duplicates_by_fingerprint. simpl.
    by rewrite Hb.
Qed.

(** X10: a registered doc id is among its own duplicates: on an index with
    a positive number of bands, [get_duplicates_of(doc_id=i)] without
    threshold returns a set that contains [i] itself, as long as [clear]
    has not been called since [i] was registered. *)
Theorem registered_id_finds_itself h nb c (i : DocId) :
  0 < nb → registered py_hash h nb c (Some i) →
  ∃ dups, result (get_duplicates_of py_hash c None (Some i) None) = inr dups
          ∧ Some i ∈ dups
          ∧ Dict.get (fingerprints c) (Some i) ≠ None.
Proof.
  intros Hnb Hreg.
  destruct (registered_finds_itself py_hash h nb c i Hnb Hreg) as (dups & Hd & Hi).
  exists dups. split_and!; [done..|].
  destruct (registered_in_store py_hash h nb c (Some i) Hreg) as [fp ->]. done.
Qed.
End edges.

Lemma negative_num_bands_witness :
  ∃ c, Cache_init Example.hasher2 (-2) = inr c ∧ bins c = [].
Proof.
  destruct (negative_num_bands Example.hash31 Example.hasher2 (-2)) as (c & Hc & Hb & _).
  - lia.
  - reflexivity.
  - exists c. split; [exact Hc | exact Hb].
Defined.

Lemma registered_id_finds_itself_witness :
  ∃ dups, result (get_duplicates_of Example.hash31 Example.both_orders
                    None (Some (IdInt 8)) None) = inr dups
          ∧ Some (IdInt 8) ∈ dups.
Proof.
  destruct (registered_id_finds_itself Example.hash31 Example.hasher2 2
              Example.both_orders (IdInt 8)) as (dups & Hd & Hi & _).
  - lia.
  - apply Scenario.both_orders_registered_8.
  - exists dups. split; [exact Hd | exact Hi].
Defined.

(** ** Export and import *)

Section export_import.
Import PySetFacts DictFacts.
Variable py_hash : list Z → Z.
Implicit Types (c : Cache) (h : Hasher) (nb : Z).

Lemma call_step_hasher c c' : call_step py_hash c c' → hasher c' = hasher c.
Proof.
  assert (∀ c doc doc_id mj,
            hasher (state (get_duplicates_of py_hash c doc doc_id mj)) = hasher c) as Hq.
  { intros c1 doc doc_id mj.
    by destruct (get_duplicates_of_state py_hash c1 doc doc_id mj) as [-> |[bands ->]]. }
  intros [c0 doc doc_id|c0 doc doc_id mj|c0 doc doc_id].
  - apply update_hasher.
  - apply Hq.
  - destruct (is_duplicate_state py_hash c0 doc doc_id) as [-> | ->]; [done | apply Hq].
Qed.

Lemma reachable_config h nb c :
  reachable py_hash h nb c →
  hasher c = h ∧ num_bands c = nb ∧ ∃ c0, Cache_init h nb = inr c0.
Proof.
  induction 1 as [c Hinit|c c' _ (Hh & Hn & H0) Hstep|c _ IH].
  - destruct (Cache_init_inv _ _ _ Hinit) as (_ & ? & ? & _). eauto.
  - by rewrite (call_step_hasher _ _ Hstep), (call_step_num_bands _ _ _ Hstep).
  - done.
Qed.

Lemma from_json_init_error data e :
  Cache_init (jd_hasher data) (jd_num_bands data) = inl e → from_json data = inl e.
Proof. unfold from_json, MinHasher_from_json_str. by intros ->. Qed.

(** X11: a cache read back by [from_json] finds no candidate at all, whatever
    was registered before the export: every [get_duplicates_of] that returns
    gives the empty set, with or without threshold, and every [is_duplicate]
    that returns says [False]. *)
Theorem imported_cache_finds_nothing (data : JsonData) c :
  from_json data = inr c →
  (∀ doc doc_id min_jaccard dups,
      result (get_duplicates_of py_hash c doc doc_id min_jaccard) = inr dups →
      dups = [])
  ∧ (∀ doc doc_id b,
      result (is_duplicate py_hash c doc doc_id) = inr b → b = false).
Proof.
  intros Hjson.
  assert (∀ doc doc_id dups,
            result (get_duplicates_of py_hash c doc doc_id None) = inr dups → dups = [])
    as Hnone.
  { intros doc doc_id dups. by apply from_json_queries_find_nothing with (data := data). }
  split.
  - intros doc doc_id [t|] dups; [|apply Hnone]. specialize (Hnone doc doc_id).
    unfold get_duplicates_of in *.
    destruct (resolve_fingerprint c doc doc_id) as [|fp]; [done|].
    unfold duplicates_by_fingerprint in *. destruct (bins_ c fp) as [|bands]; [done|].
    destruct (collect_candidates py_hash bands (bins c) []) as [bs [e|cands]]; [done|].
    simpl in *. rewrite (Hnone cands eq_refl). simpl. by intros [= <-].
  - intros doc doc_id b. unfold is_duplicate. destruct (known c doc_id); [by intros [= <-]|].
    simpl. specialize (Hnone doc None).
    destruct (result (get_duplicates_of py_hash c doc None None)) as [|dups]; [done|].
    rewrite (Hnone dups eq_refl). by intros [= <-].
Qed.

(** X12: exporting a freshly constructed cache and importing it again gives
    the same cache back. *)
Theorem fresh_cache_round_trip h nb c :
  Cache_init h nb = inr c → from_json (to_json c) = inr c.
Proof.
  intros Hinit. destruct (Cache_init_inv _ _ _ Hinit) as (_ & Hn & Hh & Hb & Hf).
  unfold from_json, to_json, jsonable, MinHasher_from_json_str, hasher_jsonable. simpl.
  rewrite Hn, Hh, Hinit, Hf. simpl. f_equal.
  destruct c as [bs hs bw n fps]. simpl in *. subst. unfold with_fingerprints, with_bins.
  simpl. f_equal. clear Hinit.
  induction (Z.to_nat nb) as [|m IH]; simpl; [done|]. by rewrite IH.
Qed.

Lemma of_items_head {K V : Type} `{EqDecision K} (items : list (K * V)) k0 v0 d :
  ∃ v d', foldl (λ d kv, Dict.set d kv.1 kv.2) ((k0, v0) :: d) items = (k0, v) :: d'.
Proof.
  revert v0 d. induction items as [|[k v] items IH]; intros v0 d; simpl; [eauto|].
  case_decide; apply IH.
Qed.

(** X13: an index whose first registered doc id is a negative integer cannot
    be loaded back: [from_json] takes the first character of its key, the
    minus sign, and [int('-')] raises [ValueError]. *)
Theorem negative_id_fails_import h nb c (z : Z) fp rest :
  reachable py_hash h nb c →
  fingerprints c = (Some (IdInt z), fp) :: rest → z < 0 →
  from_json (to_json c) = inl (ValueError invalid_literal_msg).
Proof.
  intros (Hh & Hn & c0 & Hinit)%reachable_config Hf Hz.
  unfold from_json, to_json, jsonable, MinHasher_from_json_str, hasher_jsonable. simpl.
  rewrite Hh, Hn, Hinit, Hf. simpl.
  unfold json_object, Dict.of_items. simpl.
  destruct (of_items_head
              (map (λ kv : option DocId * list Z, (json_key_of_id kv.1, kv.2)) rest)
              (pretty z) fp []) as (v & d' & ->).
  destruct z as [|p|p]; [lia..|]. reflexivity.
Qed.
End export_import.

Lemma imported_cache_finds_nothing_witness :
  from_json (to_json Example.one_doc) = inr Example.imported_one_doc
  ∧ result (get_duplicates_of Example.hash31 Example.imported_one_doc
              None (Some (IdInt 1)) None) = inr [].
Proof.
  assert (from_json (to_json Example.one_doc) = inr Example.imported_one_doc) as Himp
    by reflexivity.
  split; [exact Himp|].
  destruct (imported_cache_finds_nothing Example.hash31 _ _ Himp) as [Hq _].
  destruct (result (get_duplicates_of Example.hash31 Example.imported_one_doc
                      None (Some (IdInt 1)) None)) as [e|dups] eqn:Hd.
  - vm_compute in Hd. discriminate Hd.
  - f_equal. exact (Hq _ _ _ _ Hd).
Defined.

Lemma fresh_cache_round_trip_witness :
  from_json (to_json (Example.new_cache 2)) = inr (Example.new_cache 2).
Proof. apply (fresh_cache_round_trip Example.hasher2 2). reflexivity. Defined.

Lemma negative_id_fails_import_witness :
  from_json (to_json Example.negative_id) = inl (ValueError invalid_literal_msg).
Proof.
  apply (negative_id_fails_import Example.hash31 Example.hasher2 2 Example.negative_id
           (-5) [97; 98] []).
  - unfold Example.negative_id. eapply reachable_step; [|apply step_update].
    apply reachable_init. reflexivity.
  - reflexivity.
  - lia.
Defined.

(** ** What the round trip keeps *)

Section dict_keys.
Import DictFacts.
Context {K V : Type} `{EqDecision K}.
Implicit Types (d items acc : list (K * V)) (k : K) (v : V).

Lemma set_fresh d k v : k ∉ Dict.keys d → Dict.set d k v = (d ++ [(k, v)])%list.
Proof.
  unfold Dict.keys. induction d as [|[k' v'] d IH]; simpl; [done|].
  intros [Hne Hd]%not_elem_of_cons. rewrite decide_False by done. f_equal. by apply IH.
Qed.

Lemma set_present_keys d k v : k ∈ Dict.keys d → Dict.keys (Dict.set d k v) = Dict.keys d.
Proof.
  unfold Dict.keys. induction d as [|[k' v'] d IH]; simpl; [by intros ?%elem_of_nil|].
  case_decide as Hk; [done|]. intros [?|Hin]%elem_of_cons; [done|]. simpl. f_equal.
  by apply IH.
Qed.

Lemma foldl_set_fresh items acc :
  NoDup (acc.*1 ++ items.*1)%list →
  foldl (λ d kv, Dict.set d kv.1 kv.2) acc items = (acc ++ items)%list.
Proof.
  revert acc. induction items as [|[k v] items IH]; intros acc Hnd; simpl.
  - by rewrite app_nil_r.
  - assert (k ∉ Dict.keys acc) as Hk.
    { apply NoDup_app in Hnd as (_ & Hdisj & _). intros Hin.
      apply (Hdisj k Hin). simpl. apply elem_of_cons. by left. }
    rewrite (set_fresh _ _ _ Hk), IH.
    + by rewrite <- app_assoc.
    + rewrite fmap_app, <- app_assoc. done.
Qed.

Lemma of_items_NoDup items : NoDup items.*1 → Dict.of_items items = items.
Proof. intros Hnd. unfold Dict.of_items. by rewrite foldl_set_fresh. Qed.

Lemma elem_of_get_NoDup d k v :
  NoDup (Dict.keys d) → (k, v) ∈ d → Dict.get d k = Some v.
Proof.
  unfold Dict.keys. induction d as [|[k' v'] d IH]; simpl; [by intros _ ?%elem_of_nil|].
  intros [Hk' Hnd]%NoDup_cons [[= -> ->]|Hin]%elem_of_cons.
  - by rewrite decide_True.
  - rewrite decide_False; [by apply IH|]. intros ->. apply Hk'.
    apply list_elem_of_fmap. by exists (k', v).
Qed.
End dict_keys.

Section round_trip_pairs.
Import PySetFacts DictFacts.
Variable py_hash : list Z → Z.
Implicit Types (c : Cache) (b : bucket_map) (bs : list bucket_map).

Lemma int_keyed_nil : int_keyed [].
Proof. split; [apply NoDup_nil_2 | by intros k ?%elem_of_nil]. Qed.

Lemma int_keyed_set b z v : int_keyed b → int_keyed (Dict.set b (KInt z) v).
Proof.
  intros [Hnd Hint]. destruct (decide (KInt z ∈ Dict.keys b)) as [Hin|Hout].
  - unfold int_keyed. by rewrite (set_present_keys _ _ _ Hin).
  - unfold int_keyed. rewrite (set_fresh _ _ _ Hout). unfold Dict.keys in *.
    rewrite fmap_app. simpl. split.
    + apply NoDup_app. split_and!; [done| |apply NoDup_singleton].
      intros k Hk ->%list_elem_of_singleton. done.
    + intros k [?|Hk%list_elem_of_singleton]%elem_of_app; [by apply Hint | subst k; eauto].
Qed.

Lemma insert_bands_int_keyed doc_id bands bs :
  Forall int_keyed bs → Forall int_keyed (insert_bands py_hash doc_id bands bs).1.
Proof.
  revert bs. induction bands as [|[i band] bands IH]; intros bs Hbs; simpl; [done|].
  destruct (bs !! i) as [b|] eqn:Hi; [|done]. apply IH, Forall_insert; [done|].
  apply int_keyed_set. by eapply Forall_lookup_1.
Qed.

Lemma collect_candidates_int_keyed bands bs acc :
  Forall int_keyed bs → Forall int_keyed (collect_candidates py_hash bands bs acc).1.
Proof.
  revert bs acc. induction bands as [|[i band] bands IH]; intros bs acc Hbs; simpl; [done|].
  destruct (bs !! i) as [b|] eqn:Hi; [|done].
  assert (int_keyed b) as Hb by by eapply Forall_lookup_1.
  unfold bucket_read. destruct (Dict.get b (KInt (py_hash band))); apply IH, Forall_insert;
    [done..|]. by apply int_keyed_set.
Qed.

Lemma call_step_int_keyed c c' :
  call_step py_hash c c' →
  Forall int_keyed (bins c) ∧ sets_NoDup (bins c) →
  Forall int_keyed (bins c') ∧ sets_NoDup (bins c').
Proof.
  assert (∀ c doc doc_id mj,
            Forall int_keyed (bins c) ∧ sets_NoDup (bins c) →
            Forall int_keyed (bins (state (get_duplicates_of py_hash c doc doc_id mj)))
            ∧ sets_NoDup (bins (state (get_duplicates_of py_hash c doc doc_id mj)))) as Hq.
  { intros c1 doc doc_id mj [Hk Hs].
    destruct (get_duplicates_of_state py_hash c1 doc doc_id mj) as [-> |[bands ->]]; [done|].
    simpl. split; [by apply collect_candidates_int_keyed
                  | by apply collect_candidates_sets_NoDup]. }
  intros [c0 doc doc_id|c0 doc doc_id mj|c0 doc doc_id] [Hk Hs].
  - rewrite update_bins. destruct (bins_ _ _); [done|].
    split; [by apply insert_bands_int_keyed | by apply insert_bands_sets_NoDup].
  - by apply Hq.
  - destruct (is_duplicate_state py_hash c0 doc doc_id) as [-> | ->]; [done | by apply Hq].
Qed.

Lemma reachable_int_keyed h nb c :
  reachable py_hash h nb c → Forall int_keyed (bins c) ∧ sets_NoDup (bins c).
Proof.
  assert (∀ n, Forall int_keyed (replicate n ([] : bucket_map))
               ∧ sets_NoDup (replicate n ([] : bucket_map))) as Hempty.
  { intros n. split; [|apply replicate_empty_sets_NoDup].
    apply Forall_forall. intros b ->%elem_of_replicate_inv. apply int_keyed_nil. }
  induction 1 as [c Hinit|c c' _ IH Hstep|c _ IH].
  - apply Cache_init_inv in Hinit as (_ & _ & _ & -> & _). apply Hempty.
  - by eapply call_step_int_keyed.
  - apply Hempty.
Qed.

Lemma json_keys_NoDup b :
  int_keyed b → NoDup (json_key_of_pykey <$> Dict.keys b).
Proof.
  intros [Hnd Hint]. apply NoDup_fmap_2_strong; [|done]. intros k1 k2 Hk1 Hk2 Heq.
  destruct (Hint _ Hk1) as [z1 ->], (Hint _ Hk2) as [z2 ->]. simpl in Heq.
  by apply (inj pretty) in Heq as ->.
Qed.

Lemma fmap_keys {K1 K2 V1 V2 : Type} (f : K1 → K2) (g : V1 → V2) (d : list (K1 * V1)) :
  ((λ kv, (f kv.1, g kv.2)) <$> d).*1 = f <$> d.*1.
Proof. induction d as [|[k v] d IH]; simpl; [done | by f_equal]. Qed.

Lemma fmap_keys_fst {K1 K2 V : Type} (f : K1 → K2) (d : list (K1 * V)) :
  ((λ kv, (f kv.1, kv.2)) <$> d).*1 = f <$> d.*1.
Proof. induction d as [|[k v] d IH]; simpl; [done | by f_equal]. Qed.

(** What [to_json] and [from_json] make of one bucket mapping with integer
    keys: every key in decimal, every set rebuilt from its list. *)
Lemma import_bucket b :
  int_keyed b →
  Dict.of_items (map (λ kv : string * list (option DocId), (KStr kv.1, PySet.of_list kv.2))
                   (json_object json_key_of_pykey b))
  = (λ kv : string * list (option DocId), (KStr kv.1, PySet.of_list kv.2))
      <$> ((λ kv : pykey * list (option DocId), (json_key_of_pykey kv.1, kv.2)) <$> b).
Proof.
  intros Hb. pose proof (json_keys_NoDup b Hb) as Hnd1. unfold Dict.keys in Hnd1.
  assert (NoDup ((λ kv : pykey * list (option DocId),
                    (json_key_of_pykey kv.1, kv.2)) <$> b).*1) as HndG.
  { by rewrite fmap_keys_fst. }
  assert (json_object json_key_of_pykey b
          = (λ kv : pykey * list (option DocId), (json_key_of_pykey kv.1, kv.2)) <$> b)
    as ->.
  { by apply of_items_NoDup. }
  apply of_items_NoDup.
  change (NoDup ((λ kv : string * list (option DocId), (KStr kv.1, PySet.of_list kv.2))
                   <$> ((λ kv : pykey * list (option DocId),
                           (json_key_of_pykey kv.1, kv.2)) <$> b)).*1).
  rewrite (fmap_keys KStr PySet.of_list), fmap_keys_fst.
  apply NoDup_fmap_2; [|done]. by intros s1 s2 [= ->].
Qed.

Lemma import_bucket_keys b :
  int_keyed b →
  NoDup (Dict.keys ((λ kv : string * list (option DocId), (KStr kv.1, PySet.of_list kv.2))
                      <$> ((λ kv : pykey * list (option DocId),
                              (json_key_of_pykey kv.1, kv.2)) <$> b))).
Proof.
  intros Hb. pose proof (json_keys_NoDup b Hb) as Hnd1. unfold Dict.keys in *.
  rewrite (fmap_keys KStr PySet.of_list), fmap_keys_fst.
  apply NoDup_fmap_2; [|done]. by intros s1 s2 [= ->].
Qed.

Lemma import_bucket_items b k' ids' :
  (k', ids') ∈ (λ kv : string * list (option DocId), (KStr kv.1, PySet.of_list kv.2))
                 <$> ((λ kv : pykey * list (option DocId),
                         (json_key_of_pykey kv.1, kv.2)) <$> b)
  ↔ ∃ k ids, (k, ids) ∈ b ∧ k' = KStr (json_key_of_pykey k) ∧ ids' = PySet.of_list ids.
Proof.
  rewrite list_elem_of_fmap. split.
  - intros ([s v] & [= -> ->] & ([k ids] & [= -> ->] & Hin)%list_elem_of_fmap).
    by exists k, ids.
  - intros (k & ids & Hin & -> & ->). exists (json_key_of_pykey k, ids). split; [done|].
    apply list_elem_of_fmap. by exists (k, ids).
Qed.

Lemma import_co_bucketed bs a a' :
  Forall int_keyed bs →
  co_bucketed
    (map (λ bin : list (string * list (option DocId)),
            Dict.of_items (map (λ kv, (KStr kv.1, PySet.of_list kv.2)) bin))
         (map (json_object json_key_of_pykey) bs)) a a'
  ↔ co_bucketed bs a a'.
Proof.
  intros Hbs. pose proof (proj1 (Forall_forall _ _) Hbs) as Hall. split.
  - intros (bin' & k' & ids' & Hbin' & Hget & Ha & Ha').
    apply list_elem_of_fmap in Hbin' as (bin1 & -> & Hbin1).
    apply list_elem_of_fmap in Hbin1 as (bin & -> & Hbin).
    pose proof (Hall _ Hbin) as Hk. rewrite (import_bucket _ Hk) in Hget.
    apply get_Some_elem_of, import_bucket_items in Hget as (k & ids & Hin & -> & ->).
    rewrite elem_of_of_list in Ha, Ha'. exists bin, k, ids. split_and!; [done| |done..].
    apply elem_of_get_NoDup; [apply Hk | done].
  - intros (bin & k & ids & Hbin & Hget & Ha & Ha').
    pose proof (Hall _ Hbin) as Hk.
    eexists _, (KStr (json_key_of_pykey k)), (PySet.of_list ids). split_and!.
    + apply list_elem_of_fmap. eexists. split; [reflexivity|].
      apply list_elem_of_fmap. eexists. split; [reflexivity | exact Hbin].
    + rewrite (import_bucket _ Hk). apply elem_of_get_NoDup; [by apply import_bucket_keys|].
      apply import_bucket_items. exists k, ids. split; [by apply get_Some_elem_of | done].
    + by apply elem_of_of_list.
    + by apply elem_of_of_list.
Qed.

Lemma import_sets_NoDup bs :
  Forall int_keyed bs →
  sets_NoDup
    (map (λ bin : list (string * list (option DocId)),
            Dict.of_items (map (λ kv, (KStr kv.1, PySet.of_list kv.2)) bin))
         (map (json_object json_key_of_pykey) bs)).
Proof.
  intros Hbs. pose proof (proj1 (Forall_forall _ _) Hbs) as Hall.
  intros bin' k' ids' Hbin' Hin.
  apply list_elem_of_fmap in Hbin' as (bin1 & -> & Hbin1).
  apply list_elem_of_fmap in Hbin1 as (bin & -> & Hbin).
  rewrite (import_bucket _ (Hall _ Hbin)) in Hin.
  apply import_bucket_items in Hin as (k & ids & _ & _ & ->). apply NoDup_of_list.
Qed.

Lemma from_json_bins (c c' : Cache) :
  from_json (to_json c) = inr c' →
  bins c'
  = map (λ bin : list (string * list (option DocId)),
           Dict.of_items (map (λ kv, (KStr kv.1, PySet.of_list kv.2)) bin))
        (map (json_object json_key_of_pykey) (bins c)).
Proof.
  unfold from_json. destruct (Cache_init _ _) as [|cache]; [done|].
  destruct (key_typecast _) as [|func]; [done|].
  destruct (cast_fingerprints _ _ _) as [|fps]; [done|]. by intros [= <-].
Qed.

(** X14: what the round trip keeps.  For an index built from a fresh cache
    by any calls, if [from_json] reads the export back, then
    [get_all_duplicates()] on the imported cache reports the same unordered
    pairs as on the original: a pair is reported (in one order or the other)
    after the import exactly when it was before. *)
Theorem round_trip_keeps_pairs h nb c c' :
  reachable py_hash h nb c → from_json (to_json c) = inr c' →
  ∀ a a', ((a, a') ∈ all_candidate_pairs (bins c')
           ∨ (a', a) ∈ all_candidate_pairs (bins c'))
          ↔ ((a, a') ∈ all_candidate_pairs (bins c)
             ∨ (a', a) ∈ all_candidate_pairs (bins c)).
Proof.
  intros [Hk Hs]%reachable_int_keyed Hjson%from_json_bins a a'. rewrite Hjson.
  pose proof (import_sets_NoDup _ Hk) as Hs'.
  pose proof (λ x y, import_co_bucketed (bins c) x y Hk) as Hco.
  assert (∀ bs x y, co_bucketed bs x y → co_bucketed bs y x) as Hsym.
  { intros bs x y (bin & k & ids & ? & ? & ? & ?). by exists bin, k, ids. }
  assert (∀ bs x y, sets_NoDup bs → (x, y) ∈ all_candidate_pairs bs → y ≠ x) as Hne.
  { intros bs x y Hnd Hp Heq. by apply (candidate_pair_distinct bs x y Hnd Hp). }
  split.
  - intros [Hp|Hp].
    + apply co_bucketed_candidate_pair; [exact (candidate_pair_distinct _ _ _ Hs' Hp)|].
      apply (proj1 (Hco _ _)). by apply candidate_pair_co_bucketed.
    + apply co_bucketed_candidate_pair; [exact (Hne _ _ _ Hs' Hp)|].
      apply Hsym, (proj1 (Hco _ _)). by apply candidate_pair_co_bucketed.
  - intros [Hp|Hp].
    + apply co_bucketed_candidate_pair; [exact (candidate_pair_distinct _ _ _ Hs Hp)|].
      apply (proj2 (Hco _ _)). by apply candidate_pair_co_bucketed.
    + apply co_bucketed_candidate_pair; [exact (Hne _ _ _ Hs Hp)|].
      apply Hsym, (proj2 (Hco _ _)). by apply candidate_pair_co_bucketed.
Qed.
End round_trip_pairs.

Lemma round_trip_keeps_pairs_witness :
  reachable Example.hash31 Example.hasher2 2 Example.both_orders
  ∧ from_json (to_json Example.both_orders) = inr Example.imported_both_orders
  ∧ ((Some (IdInt 0), Some (IdInt 8)) ∈ all_candidate_pairs (bins Example.imported_both_orders)
     ∨ (Some (IdInt 8), Some (IdInt 0))
         ∈ all_candidate_pairs (bins Example.imported_both_orders)).
Proof.
  assert (from_json (to_json Example.both_orders) = inr Example.imported_both_orders)
    as Himp by reflexivity.
  split; [apply Scenario.both_orders_reachable|]. split; [exact Himp|].
  apply (round_trip_keeps_pairs Example.hash31 Example.hasher2 2 Example.both_orders
           Example.imported_both_orders Scenario.both_orders_reachable Himp).
  right. vm_compute. apply elem_of_cons. by left.
Defined.

(** ** No call raises on a properly constructed index *)

Section no_exception.
Variable py_hash : list Z → Z.

(** X15: in every state reachable from a cache constructed with a positive
    [num_bands], the index keeps one bucket mapping per band and sets
    without repeated members; there every [update] returns, every
    [get_duplicates_of] that is given content returns (also with a
    threshold), and [is_duplicate] returns. *)
Theorem reachable_calls_return (h : Hasher) (nb : Z) (c : Cache) :
  0 < nb → reachable py_hash h nb c →
  well_formed c
  ∧ (∀ (doc : string) doc_id, result (update py_hash c doc doc_id) = inr ())
  ∧ (∀ (d : string) doc_id min_jaccard,
       ∃ dups, result (get_duplicates_of py_hash c (Some d) doc_id min_jaccard) = inr dups)
  ∧ (∀ (d : string) doc_id,
       ∃ b, result (is_duplicate py_hash c (Some d) doc_id) = inr b).
Proof.
  intros Hnb Hreach.
  assert (well_formed c) as Hwf.
  { split.
    - by rewrite (reachable_num_bands _ _ _ _ Hreach).
    - by apply (reachable_shape_ok py_hash h nb).
    - by apply (reachable_int_keyed py_hash h nb). }
  pose proof (reachable_ids_in_store_aux _ _ _ _ Hreach) as Hinv.
  assert (∀ (d : string) doc_id mj,
            ∃ dups, result (get_duplicates_of py_hash c (Some d) doc_id mj) = inr dups) as Hq.
  { intros d doc_id mj.
    assert (∃ fp, resolve_fingerprint c (Some d) doc_id = inr fp) as [fp Hr].
    { unfold resolve_fingerprint. destruct (known c doc_id) eqn:Hk; [|eauto].
      apply known_spec in Hk as (i & _ & [fp ->]). eauto. }
    unfold get_duplicates_of. rewrite Hr. unfold duplicates_by_fingerprint.
    destruct (bins__total c fp (wf_num_bands _ Hwf)) as [bands Hb]. rewrite Hb.
    destruct (collect_candidates_ok py_hash bands (bins c) []) as [cands Hc].
    { eapply bins__in_range; [apply Hwf | done]. }
    destruct (collect_candidates_all_ids py_hash
                (λ x, is_Some (Dict.get (fingerprints c) x)) bands (bins c) [])
      as [_ Hcands]; [exact Hinv | by intros x ?%elem_of_nil |].
    destruct (collect_candidates py_hash bands (bins c) []) as [bs r].
    simpl in *. subst r. simpl. destruct mj as [t|]; [|eauto].
    apply filter_ids_total. simpl. by apply Hcands. }
  split_and!; [done| |done|].
  - intros doc doc_id. by apply update_succeeds.
  - intros d doc_id. unfold is_duplicate. destruct (known c doc_id); [eauto|].
    destruct (Hq d None None) as [dups ->]. eauto.
Qed.
End no_exception.

Lemma reachable_calls_return_witness :
  reachable Example.hash31 Example.hasher2 2 Example.both_orders
  ∧ result (update Example.hash31 Example.both_orders "qq" None) = inr ().
Proof.
  split; [apply Scenario.both_orders_reachable|].
  destruct (reachable_calls_return Example.hash31 Example.hasher2 2 Example.both_orders)
    as (_ & Hupd & _).
  - lia.
  - apply Scenario.both_orders_reachable.
  - apply Hupd.
Defined.
